(** * Pachyderm: deployment defaults, Vault login path and the indexed
      collection engine

    Three parts of the repository are covered:
    - [Assets] and [Manifest]: [fillDefaultResourceRequests], the
      [Write...Assets] functions, [EtcdStorageClass], [EtcdVolume],
      [AddRegistry] and the secrets of
      [src/server/pkg/deploy/assets/assets.go];
    - [Vault]: [pathAuthLogin] and [generateUserCredentials] of
      [src/plugin/vault/pachyderm/login.go];
    - [Collection]: the indexed, watchable collection exercised by
      [src/server/pkg/collection/collection_test.go]. *)

From Stdlib Require Import Ascii.
From stdpp Require Import base decidable option list gmap strings sorting.
From Stdlib Require Import ZArith Lia.

Local Open Scope Z_scope.

(** ** Deployment assets (assets.go) *)

Module Assets.

  (** [type backend int] with its [iota] constants. *)
Definition backend := Z.
Definition localBackend : backend := 0.
Definition amazonBackend : backend := 1.
Definition googleBackend : backend := 2.
Definition microsoftBackend : backend := 3.
Definition minioBackend : backend := 4.

  (** [AssetOpts], field for field ([uint64] as [N], [int] as [Z]). *)
Record AssetOpts := mkAssetOpts {
    PachdShards : N;
    Version : string;
    LogLevel : string;
    Metrics : bool;
    Dynamic : bool;
    EtcdNodes : Z;
    EtcdVolume : string;
    DashOnly : bool;
    NoDash : bool;
    DashImage : string;
    Registry : string;
    EtcdPrefix : string;
    NoGuaranteed : bool;
    DisableAuthentication : bool;
    BlockCacheSize : string;
    PachdCPURequest : string;
    PachdNonCacheMemRequest : string;
    EtcdCPURequest : string;
    EtcdMemRequest : string;
    IAMRole : string;
    ImagePullSecret : string;
    NoRBAC : bool;
    Namespace : string
  }.

  (** The five assignments [opts.F = v] the function performs. *)
Definition set_BlockCacheSize (v : string) (o : AssetOpts) : AssetOpts :=
    mkAssetOpts (PachdShards o) (Version o) (LogLevel o) (Metrics o) (Dynamic o)
      (EtcdNodes o) (EtcdVolume o) (DashOnly o) (NoDash o) (DashImage o)
      (Registry o) (EtcdPrefix o) (NoGuaranteed o) (DisableAuthentication o)
      v (PachdCPURequest o) (PachdNonCacheMemRequest o)
      (EtcdCPURequest o) (EtcdMemRequest o) (IAMRole o) (ImagePullSecret o)
      (NoRBAC o) (Namespace o).

Definition set_PachdCPURequest (v : string) (o : AssetOpts) : AssetOpts :=
    mkAssetOpts (PachdShards o) (Version o) (LogLevel o) (Metrics o) (Dynamic o)
      (EtcdNodes o) (EtcdVolume o) (DashOnly o) (NoDash o) (DashImage o)
      (Registry o) (EtcdPrefix o) (NoGuaranteed o) (DisableAuthentication o)
      (BlockCacheSize o) v (PachdNonCacheMemRequest o)
      (EtcdCPURequest o) (EtcdMemRequest o) (IAMRole o) (ImagePullSecret o)
      (NoRBAC o) (Namespace o).

Definition set_PachdNonCacheMemRequest (v : string) (o : AssetOpts) : AssetOpts :=
    mkAssetOpts (PachdShards o) (Version o) (LogLevel o) (Metrics o) (Dynamic o)
      (EtcdNodes o) (EtcdVolume o) (DashOnly o) (NoDash o) (DashImage o)
      (Registry o) (EtcdPrefix o) (NoGuaranteed o) (DisableAuthentication o)
      (BlockCacheSize o) (PachdCPURequest o) v
      (EtcdCPURequest o) (EtcdMemRequest o) (IAMRole o) (ImagePullSecret o)
      (NoRBAC o) (Namespace o).

Definition set_EtcdCPURequest (v : string) (o : AssetOpts) : AssetOpts :=
    mkAssetOpts (PachdShards o) (Version o) (LogLevel o) (Metrics o) (Dynamic o)
      (EtcdNodes o) (EtcdVolume o) (DashOnly o) (NoDash o) (DashImage o)
      (Registry o) (EtcdPrefix o) (NoGuaranteed o) (DisableAuthentication o)
      (BlockCacheSize o) (PachdCPURequest o) (PachdNonCacheMemRequest o)
      v (EtcdMemRequest o) (IAMRole o) (ImagePullSecret o)
      (NoRBAC o) (Namespace o).

Definition set_EtcdMemRequest (v : string) (o : AssetOpts) : AssetOpts :=
    mkAssetOpts (PachdShards o) (Version o) (LogLevel o) (Metrics o) (Dynamic o)
      (EtcdNodes o) (EtcdVolume o) (DashOnly o) (NoDash o) (DashImage o)
      (Registry o) (EtcdPrefix o) (NoGuaranteed o) (DisableAuthentication o)
      (BlockCacheSize o) (PachdCPURequest o) (PachdNonCacheMemRequest o)
      (EtcdCPURequest o) v (IAMRole o) (ImagePullSecret o)
      (NoRBAC o) (Namespace o).

  (** [if opts.F == "" { opts.F = v }] *)
Definition fillIfEmpty (get : AssetOpts -> string)
      (set : string -> AssetOpts -> AssetOpts) (v : string)
      (o : AssetOpts) : AssetOpts :=
    if decide (get o = "") then set v o else o.

  (** [fillDefaultResourceRequests(opts *AssetOpts, persistentDiskBackend backend)]:
      the pointer argument is updated in place, so the model returns the
      updated options.  The statements run in the order of the source. *)
Definition fillDefaultResourceRequests (opts : AssetOpts)
      (persistentDiskBackend : backend) : AssetOpts :=
    if decide (persistentDiskBackend = localBackend) then
      let opts := fillIfEmpty BlockCacheSize set_BlockCacheSize "256M" opts in
      let opts := fillIfEmpty PachdNonCacheMemRequest set_PachdNonCacheMemRequest "256M" opts in
      let opts := fillIfEmpty PachdCPURequest set_PachdCPURequest "0.25" opts in
      let opts := fillIfEmpty EtcdMemRequest set_EtcdMemRequest "256M" opts in
      let opts := fillIfEmpty EtcdCPURequest set_EtcdCPURequest "0.25" opts in
      opts
    else
      let opts := fillIfEmpty BlockCacheSize set_BlockCacheSize "1G" opts in
      let opts := fillIfEmpty PachdNonCacheMemRequest set_PachdNonCacheMemRequest "2G" opts in
      let opts := fillIfEmpty PachdCPURequest set_PachdCPURequest "1" opts in
      let opts := fillIfEmpty EtcdMemRequest set_EtcdMemRequest "2G" opts in
      let opts := fillIfEmpty EtcdCPURequest set_EtcdCPURequest "1" opts in
      opts.

  (** What a resource field holds afterwards, as a function of what it
      held before and of the default for the deployment kind. *)
Definition keepOr (old default : string) : string :=
    if decide (old = "") then default else old.

End Assets.

(** ** Deployment manifests (assets.go) *)

Module Manifest.
Import Assets.

(** The package-level names. *)
Definition suite : string := "pachyderm".
Definition pachdImage : string := "pachyderm/pachd".
Definition etcdImage : string := "pachyderm/etcd:v3.2.7".
Definition grpcProxyImage : string := "pachyderm/grpc-proxy:0.4.2".
Definition workerImage : string := "pachyderm/worker".
Definition etcdName : string := "etcd".
Definition etcdVolumeName : string := "etcd-volume".
Definition etcdStorageClassName : string := "etcd-storage-class".
Definition s3CustomArgs : nat := 6.

(** The [error] values the package builds, one constructor for each
    [fmt.Errorf] of the file with the values it formats: the backend
    mismatch and the two etcd option errors of [WriteAssets], the unknown
    backend of [EtcdVolume], and the four argument errors of
    [WriteCustomAssets]. *)
Inductive error :=
  | ErrLocalMismatch (persistentDiskBackend objectStoreBackend : backend)
  | ErrBothEtcdOptions
  | ErrNoEtcdOption
  | ErrUnknownBackend (persistentDiskBackend : backend)
  | ErrExpectedArguments (n : nat)
  | ErrVolumeSize (arg : string)
  | ErrPersistentDiskChoice
  | ErrObjectStoreChoice.

(** [strings.Split(s, sep)] for a separator of one character: the
    pieces between the separators, one more than there are separators. *)
Fixpoint Split (s : string) (sep : ascii) : list string :=
  match s with
  | EmptyString => [EmptyString]
  | String c s' =>
      if decide (c = sep) then EmptyString :: Split s' sep
      else match Split s' sep with
           | p :: ps => String c p :: ps
           | [] => [String c EmptyString]
           end
  end.

(** [labels(name)] *)
Definition labels (name : string) : gmap string string :=
  {[ "app" := name; "suite" := suite ]}.

(** [metav1.TypeMeta] and [metav1.ObjectMeta] as [objectMeta] fills
    them; a [nil] annotation map is [None]. *)
Record TypeMeta := mkTypeMeta { Kind : string; APIVersion : string }.
Record ObjectMeta := mkObjectMeta {
  metaName : string;
  metaLabels : gmap string string;
  metaAnnotations : option (gmap string string);
  metaNamespace : string
}.

Definition objectMeta (name : string) (labels : gmap string string)
    (annotations : option (gmap string string)) (namespace : string) : ObjectMeta :=
  mkObjectMeta name labels annotations namespace.

(** [versionedPachdImage] and [versionedWorkerImage] *)
Definition versionedPachdImage (opts : AssetOpts) : string :=
  if decide (Version opts <> "") then pachdImage +:+ ":" +:+ Version opts
  else pachdImage.

Definition versionedWorkerImage (opts : AssetOpts) : string :=
  if decide (Version opts <> "") then workerImage +:+ ":" +:+ Version opts
  else workerImage.

(** [EtcdStorageClass]: the manifest is a map in the source; its keys
    are the fields here.  The result is the pair the function returns,
    [None] for [nil]. *)
Record StorageClass := mkStorageClass {
  scAPIVersion : string;
  scKind : string;
  scName : string;
  scLabels : gmap string string;
  scNamespace : string;
  scProvisioner : string;
  scParameters : gmap string string
}.

Definition EtcdStorageClass (opts : AssetOpts) (backend : backend)
    : option StorageClass * option error :=
  let sc provisioner parameters :=
    mkStorageClass "storage.k8s.io/v1beta1" "StorageClass"
      etcdStorageClassName (labels etcdName) (Namespace opts)
      provisioner parameters in
  if decide (backend = googleBackend) then
    (Some (sc "kubernetes.io/gce-pd" {[ "type" := "pd-ssd" ]}), None)
  else if decide (backend = amazonBackend) then
    (Some (sc "kubernetes.io/aws-ebs" {[ "type" := "gp2" ]}), None)
  else (None, None).

(** [v1.PersistentVolume] as [EtcdVolume] fills it.  [QuantityGi size]
    stands for [resource.MustParse(fmt.Sprintf(..Gi, size))]. *)
Inductive Quantity := QuantityGi (size : Z).
Inductive PersistentVolumeAccessMode := ReadWriteOnce.
Inductive PersistentVolumeReclaimPolicy := PersistentVolumeReclaimRetain.
Inductive PersistentVolumeSource :=
  | NoVolumeSource
  | AWSElasticBlockStore (FSType VolumeID : string)
  | GCEPersistentDisk (FSType PDName : string)
  | AzureDisk (DiskName DataDiskURI : string)
  | HostPath (Path : string).
Record PersistentVolumeSpec := mkPersistentVolumeSpec {
  Capacity : gmap string Quantity;
  AccessModes : list PersistentVolumeAccessMode;
  ReclaimPolicy : PersistentVolumeReclaimPolicy;
  VolumeSource : PersistentVolumeSource
}.
Record PersistentVolume := mkPersistentVolume {
  pvTypeMeta : TypeMeta;
  pvObjectMeta : ObjectMeta;
  pvSpec : PersistentVolumeSpec
}.

(** [MinioSecret], [LocalSecret], [AmazonSecret], [AmazonVaultSecret],
    [GoogleSecret] and [MicrosoftSecret]: a secret is a map from names
    to bytes, [None] for the [nil] map. *)
Definition SecretData := option (gmap string string).

Definition MinioSecret (bucket id secret endpoint : string) (secure isS3V2 : bool)
    : SecretData :=
  let secureV := if secure then "1" else "0" in
  let s3V2 := if isS3V2 then "1" else "0" in
  Some {[ "minio-bucket" := bucket; "minio-id" := id; "minio-secret" := secret;
          "minio-endpoint" := endpoint; "minio-secure" := secureV;
          "minio-signature" := s3V2 ]}.


Definition AmazonSecret (region bucket id secret token distribution : string)
    : SecretData :=
  Some {[ "amazon-bucket" := bucket; "amazon-distribution" := distribution;
          "amazon-id" := id; "amazon-secret" := secret; "amazon-token" := token;
          "amazon-region" := region ]}.

Definition AmazonVaultSecret
    (region bucket vaultAddress vaultRole vaultToken distribution : string)
    : SecretData :=
  Some {[ "amazon-bucket" := bucket; "amazon-region" := region;
          "amazon-distribution" := distribution; "amazon-vault-addr" := vaultAddress;
          "amazon-vault-role" := vaultRole; "amazon-vault-token" := vaultToken ]}.



(** [AmazonCreds] *)
Record AmazonCreds := mkAmazonCreds {
  ID : string;
  Secret : string;
  Token : string;
  VaultAddress : string;
  VaultRole : string;
  VaultToken : string
}.

(** What the [Write...] functions send to the writer.  An object handed
    to [encoder.Encode] is named by the call that builds it, with the
    arguments of that call; the two objects whose construction can fail
    or be skipped ([EtcdStorageClass], [EtcdVolume]) are carried as
    built.  [Newline] is the [fmt.Fprintf] of a line break that follows
    each object. *)
Inductive Doc :=
  | DocServiceAccount (opts : AssetOpts)
  | DocClusterRole (opts : AssetOpts)
  | DocClusterRoleBinding (opts : AssetOpts)
  | DocEtcdDeployment (opts : AssetOpts) (hostPath : string)
  | DocEtcdStorageClass (sc : StorageClass)
  | DocEtcdHeadlessService (opts : AssetOpts)
  | DocEtcdStatefulSet (opts : AssetOpts) (backend : backend) (diskSpace : Z)
  | DocEtcdVolume (volume : PersistentVolume)
  | DocEtcdVolumeClaim (size : Z) (opts : AssetOpts)
  | DocEtcdNodePortService (local : bool) (opts : AssetOpts)
  | DocPachdService (opts : AssetOpts)
  | DocPachdDeployment (opts : AssetOpts) (objectStoreBackend : backend)
      (hostPath : string)
  | DocDashService (opts : AssetOpts)
  | DocDashDeployment (opts : AssetOpts)
  | DocSecret (data : SecretData) (opts : AssetOpts).

Inductive Output :=
  | Encode (doc : Doc)
  | Newline.

Definition Writer := list Output.

(** [encoder.Encode(doc)] followed by [fmt.Fprintf(w, newline)]. *)
Definition encode (w : Writer) (doc : Doc) : Writer := w ++ [Encode doc; Newline].

(** [WriteSecret] *)
Definition WriteSecret (w : Writer) (data : SecretData) (opts : AssetOpts) : Writer :=
  if DashOnly opts then w
  else encode w (DocSecret data opts).

(** [WriteDashboardAssets] *)
Definition WriteDashboardAssets (w : Writer) (opts : AssetOpts) : Writer :=
  let w := encode w (DocDashService opts) in
  let w := encode w (DocDashDeployment opts) in
  w.

Section Writers.
  (** Functions of the Go library, taken as they answer: [path.Join],
      [filepath.Join] and [strconv.Atoi] ([None] for its error). *)
  Variable pathJoin : list string -> string.
  Variable filepathJoin : list string -> string.
  Variable Atoi : string -> option Z.

(** [AddRegistry]: indexing [parts] out of range panics, which is
    [None] here. *)
Definition AddRegistry (registry imageName : string) : option string :=
  let parts := Split imageName "/" in
  let parts := if decide (length parts = 3%nat) then drop 1 parts else parts in
  if decide (registry <> "") then
    p0 ← parts !! 0%nat; p1 ← parts !! 1%nat; Some (pathJoin [registry; p0; p1])
  else
    p0 ← parts !! 0%nat; p1 ← parts !! 1%nat; Some (pathJoin [p0; p1]).

(** [EtcdVolume] *)
Definition EtcdVolume (persistentDiskBackend : backend) (opts : AssetOpts)
    (hostPath name : string) (size : Z) : error + PersistentVolume :=
  let spec source :=
    mkPersistentVolume
      (mkTypeMeta "PersistentVolume" "v1")
      (objectMeta etcdVolumeName (labels etcdName) None (Namespace opts))
      (mkPersistentVolumeSpec {[ "storage" := QuantityGi size ]}
         [ReadWriteOnce] PersistentVolumeReclaimRetain source) in
  if decide (persistentDiskBackend = amazonBackend) then
    inr (spec (AWSElasticBlockStore "ext4" name))
  else if decide (persistentDiskBackend = googleBackend) then
    inr (spec (GCEPersistentDisk "ext4" name))
  else if decide (persistentDiskBackend = microsoftBackend) then
    let dataDiskURI := name in
    let split := Split name "/" in
    let diskName := default "" (split !! (length split - 1)%nat) in
    inr (spec (AzureDisk diskName dataDiskURI))
  else if decide (persistentDiskBackend = minioBackend
                  \/ persistentDiskBackend = localBackend) then
    inr (spec (HostPath (filepathJoin [hostPath; "etcd"])))
  else inl (ErrUnknownBackend persistentDiskBackend).

(** [WriteAssets]: the writer and the options are updated in place in
    the source, so both come back with the returned error ([None] for
    [nil]).  The field [opts.EtcdVolume] is [Assets.EtcdVolume opts]. *)
Definition WriteAssets (w : Writer) (opts : AssetOpts)
    (objectStoreBackend persistentDiskBackend : backend) (volumeSize : Z)
    (hostPath : string) : Writer * AssetOpts * option error :=
  if decide ((persistentDiskBackend = localBackend \/ objectStoreBackend = localBackend)
             /\ persistentDiskBackend <> objectStoreBackend)
  then (w, opts, Some (ErrLocalMismatch persistentDiskBackend objectStoreBackend))
  else
  let opts := fillDefaultResourceRequests opts persistentDiskBackend in
  if DashOnly opts then (WriteDashboardAssets w opts, opts, None) else
  let w := encode w (DocServiceAccount opts) in
  let w := if negb (NoRBAC opts)
           then encode (encode w (DocClusterRole opts)) (DocClusterRoleBinding opts)
           else w in
  if decide (EtcdNodes opts > 0 /\ Assets.EtcdVolume opts <> "")
  then (w, opts, Some ErrBothEtcdOptions) else
  let etcd : error * Writer + Writer :=
    if decide (objectStoreBackend = localBackend) then
      inr (encode w (DocEtcdDeployment opts hostPath))
    else if decide (EtcdNodes opts > 0) then
      match EtcdStorageClass opts persistentDiskBackend with
      | (_, Some err) => inl (err, w)
      | (sc, None) =>
          let w := match sc with
                   | Some sc => encode w (DocEtcdStorageClass sc)
                   | None => w
                   end in
          let w := encode w (DocEtcdHeadlessService opts) in
          let w := encode w (DocEtcdStatefulSet opts persistentDiskBackend volumeSize) in
          inr w
      end
    else if decide (Assets.EtcdVolume opts <> "" \/ persistentDiskBackend = localBackend) then
      match EtcdVolume persistentDiskBackend opts hostPath (Assets.EtcdVolume opts) volumeSize with
      | inl err => inl (err, w)
      | inr volume =>
          let w := encode w (DocEtcdVolume volume) in
          let w := encode w (DocEtcdVolumeClaim volumeSize opts) in
          let w := encode w (DocEtcdDeployment opts "") in
          inr w
      end
    else inl (ErrNoEtcdOption, w) in
  match etcd with
  | inl (err, w) => (w, opts, Some err)
  | inr w =>
      let w := encode w (DocEtcdNodePortService
                           (bool_decide (objectStoreBackend = localBackend)) opts) in
      let w := encode w (DocPachdService opts) in
      let w := encode w (DocPachdDeployment opts objectStoreBackend hostPath) in
      let w := if negb (NoDash opts) then WriteDashboardAssets w opts else w in
      (w, opts, None)
  end.


(** [WriteCustomAssets]; [arg args i] is [args[i]], read only after the
    length of [args] has been checked. *)
Definition arg (args : list string) (i : nat) : string := default "" (args !! i).

Definition WriteCustomAssets (w : Writer) (opts : AssetOpts) (args : list string)
    (objectStoreBackend persistentDiskBackend : string) (secure isS3V2 : bool)
    : Writer * AssetOpts * option error :=
  if decide (objectStoreBackend = "s3") then
    if decide (length args <> s3CustomArgs)
    then (w, opts, Some (ErrExpectedArguments s3CustomArgs)) else
    match Atoi (arg args 1) with
    | None => (w, opts, Some (ErrVolumeSize (arg args 1)))
    | Some volumeSize =>
        let written :=
          if decide (persistentDiskBackend = "aws") then
            WriteAssets w opts minioBackend amazonBackend volumeSize ""
          else if decide (persistentDiskBackend = "google") then
            WriteAssets w opts minioBackend googleBackend volumeSize ""
          else if decide (persistentDiskBackend = "azure") then
            WriteAssets w opts minioBackend microsoftBackend volumeSize ""
          else (w, opts, Some ErrPersistentDiskChoice) in
        match written with
        | (w, opts, Some err) => (w, opts, Some err)
        | (w, opts, None) =>
            (WriteSecret w
               (MinioSecret (arg args 2) (arg args 3) (arg args 4) (arg args 5)
                  secure isS3V2) opts,
             opts, None)
        end
    end
  else (w, opts, Some ErrObjectStoreChoice).

(** [WriteAmazonAssets] *)
Definition WriteAmazonAssets (w : Writer) (opts : AssetOpts) (region bucket : string)
    (volumeSize : Z) (creds : AmazonCreds) (cloudfrontDistro : string)
    : Writer * AssetOpts * option error :=
  match WriteAssets w opts amazonBackend amazonBackend volumeSize "" with
  | (w, opts, Some err) => (w, opts, Some err)
  | (w, opts, None) =>
      let secret :=
        if decide (ID creds <> "" /\ Secret creds <> "") then
          AmazonSecret region bucket (ID creds) (Secret creds) (Token creds)
            cloudfrontDistro
        else if decide (VaultRole creds <> "" /\ VaultToken creds <> "") then
          AmazonVaultSecret region bucket (VaultAddress creds) (VaultRole creds)
            (VaultToken creds) cloudfrontDistro
        else None in
      (WriteSecret w secret opts, opts, None)
  end.



End Writers.

End Manifest.

(** ** Vault plugin login path (login.go) *)

Module Vault.

  (** Go [error] values that can come out of the login path:
      the sentinel [logical.ErrInvalidRequest], a value built by
      [errors.New], or whatever a collaborator returned. *)
Inductive error :=
  | ErrInvalidRequest
  | errorsNew (msg : string)
  | ErrCollaborator (msg : string).

Definition result (A : Type) : Type := (error + A)%type.

  (** [time.Duration]: a count of nanoseconds. *)
Definition Duration := Z.

  (** The fields of the stored plugin configuration that the login path reads. *)
Record config := mkConfig {
    AdminToken : string;
    PachdAddress : string;
    TTL : string
  }.

  (** [logical.Request], restricted to what the function touches. *)
Record Request (Storage : Type) := mkRequest {
    ID : string;
    Operation : string;
    Path : string;
    ReqStorage : Storage
  }.
  Arguments ID {Storage}. Arguments Operation {Storage}.
  Arguments Path {Storage}. Arguments ReqStorage {Storage}.

  (** [framework.FieldData] for a schema of string fields: the raw
      values, with the type's zero value for a field that was not sent. *)
Definition FieldData := gmap string string.
Definition Get (d : FieldData) (k : string) : string := default "" (d !! k).

  (** [logical.Response] as built at the end of [pathAuthLogin]. *)
Record LeaseOptions := mkLeaseOptions { LeaseTTL : Duration; Renewable : bool }.
Record Auth := mkAuth {
    InternalData : gmap string string;
    Metadata : gmap string string;
    AuthLeaseOptions : LeaseOptions
  }.
Record Response := mkResponse { RespAuth : Auth }.

  (** Every interaction with the outside world, in the order it happens. *)
Inductive Call :=
  | CallDebug (msg : string)
  | CallGetConfig
  | CallSanitizeTTLStr (ttl maxTTL : string)
  | CallNewFromAddress (pachdAddress : string)
  | CallSetAuthToken (adminToken : string)
  | CallGetAuthToken (subject : string) (ttlSeconds : Z).

  (** The calls that reach pachd. *)
Definition isRemote (c : Call) : bool :=
    match c with
    | CallNewFromAddress _ | CallSetAuthToken _ | CallGetAuthToken _ _ => true
    | _ => false
    end.

Definition noRemoteCall (tr : list Call) : Prop :=
    Forall (fun c => isRemote c = false) tr.

  (** Computations that log their calls and may fail: the log so far
      goes in, the outcome and the extended log come out. *)
Definition M (A : Type) : Type := list Call -> result A * list Call.

Definition fail {A} (e : error) : M A := fun tr => (inl e, tr).
#[export] Instance M_ret : MRet M := fun A a tr => (inr a, tr).
#[export] Instance M_bind : MBind M := fun A B k m tr =>
    match m tr with
    | (inl e, tr') => (inl e, tr')
    | (inr a, tr') => k a tr'
    end.
  (** Perform an outside call: log it, then continue with its answer. *)
Definition call {A} (c : Call) (answer : result A) : M A :=
    fun tr => (answer, tr ++ [c]).

  Section Login.
    Context {Storage Client : Type}.

    (** Collaborators outside login.go, taken as they answer:
        [getConfig] (config.go of the plugin), the Vault framework's
        [SanitizeTTLStr], [System().MaxLeaseTTL()] and [Duration.String],
        [int64(ttl.Seconds())], and the pachd client. *)
    Variable getConfig : Storage -> result config.
    Variable SanitizeTTLStr : string -> string -> result Duration.
    Variable MaxLeaseTTL : Duration.
    Variable DurationString : Duration -> string.
    Variable Seconds : Duration -> Z.
    Variable NewFromAddress : string -> result Client.
    Variable GetAuthToken : Client -> string -> string -> Z -> result string.

    (** [generateUserCredentials(ctx, pachdAddress, adminToken, username, ttl)] *)
Definition generateUserCredentials (pachdAddress adminToken username : string)
        (ttl : Duration) : M string :=
      client ← call (CallNewFromAddress pachdAddress) (NewFromAddress pachdAddress);
      _ ← call (CallSetAuthToken adminToken) (inr tt);
      token ← call (CallGetAuthToken username (Seconds ttl))
                   (GetAuthToken client adminToken username (Seconds ttl));
      mret token.

Definition fmtBool (b : bool) : string := if b then "true" else "false".

    (** The body of [pathAuthLogin] between the two log lines. *)
Definition pathAuthLoginBody (req : Request Storage) (d : FieldData) : M Response :=
      let username := Get d "username" in
      if decide (String.length username = 0%nat) then fail ErrInvalidRequest else
      config ← call CallGetConfig (getConfig (ReqStorage req));
      if decide (String.length (AdminToken config) = 0%nat)
      then fail (errorsNew "plugin is missing admin_token") else
      if decide (String.length (PachdAddress config) = 0%nat)
      then fail (errorsNew "plugin is missing pachd_address") else
      if decide (String.length (TTL config) = 0%nat)
      then fail (errorsNew "plugin is missing ttl") else
      ttl ← call (CallSanitizeTTLStr (TTL config) (DurationString MaxLeaseTTL))
                 (SanitizeTTLStr (TTL config) (DurationString MaxLeaseTTL));
      userToken ← generateUserCredentials (PachdAddress config) (AdminToken config)
                    username ttl;
      mret (mkResponse (mkAuth
             {[ "user_token" := userToken ]}
             (<[ "user_token" := userToken ]> {[ "pachd_address" := PachdAddress config ]})
             (mkLeaseOptions ttl true))).

    (** [pathAuthLogin]: the entry log line, the body, and the deferred
        exit log line, which sees the outcome ([resp.IsError()] is false
        for the response built here, which carries no [Data]). *)
Definition pathAuthLogin (req : Request Storage) (d : FieldData) : M Response :=
      fun tr =>
        let tr := tr ++ [CallDebug ("(" +:+ ID req +:+ ") " +:+ Operation req
                                    +:+ " received at " +:+ Path req)] in
        let '(r, tr) := pathAuthLoginBody req d tr in
        let success := match r with inr _ => true | inl _ => false end in
        (r, tr ++ [CallDebug ("(" +:+ ID req +:+ ") " +:+ Operation req
                              +:+ " finished at " +:+ Path req
                              +:+ " (success=" +:+ fmtBool success +:+ ")")]).
  End Login.

End Vault.

(** ** The indexed collection (collection_test.go)

    The engine itself (collection.go, the transaction wrapper and the
    watch package) is exercised by [collection_test.go] but is not among
    the sources at hand; its operations are modelled from the
    specification, and the fixtures and scenarios of the tests are
    transcribed from the test file. *)

Module Collection.

#[export] Instance byte_eq_dec : EqDecision Byte.byte := Byte.byte_eq_dec.

  (** *** Key segments *)

  (** Does the reserved separator ["/"] occur in [s]? *)
Fixpoint hasSlash (s : string) : bool :=
    match s with
    | EmptyString => false
    | String c r => if Ascii.eqb c "/"%char then true else hasSlash r
    end.

  (** The trailing key segment: what follows the last separator. *)
Fixpoint trailingSegment (s : string) : string :=
    match s with
    | EmptyString => EmptyString
    | String c r =>
        if hasSlash r then trailingSegment r
        else if Ascii.eqb c "/"%char then r else String c r
    end.

  (** [k] without its first [length p] characters. *)
Definition dropPrefix (p k : string) : string :=
    String.substring (String.length p) (String.length k - String.length p) k.

  (** *** Errors *)

Inductive Error := ErrNotFound | ErrUnmarshal.

Inductive result (A : Type) := Ok (a : A) | Err (e : Error).
  Arguments Ok {A}. Arguments Err {A}.

#[export] Instance result_ret : MRet result := fun A a => Ok a.
#[export] Instance result_bind : MBind result := fun A B k m =>
    match m with Ok a => k a | Err e => Err e end.

  (** *** The coordination store

      Modelled from the spec: the coordination store (etcd) is an
      external capability; section 6 lists what the engine consumes: keys
      with byte payloads, leases shared by keys, and an ordered change
      feed of put and delete notifications. *)

Definition LeaseID := nat.

Record KeyValue := mkKV { Value : list Byte.byte; Lease : option LeaseID }.

Record LeaseInfo := mkLease { GrantedTTL : Z; Deadline : Z }.

Inductive RawEvent :=
  | RawPut (key : string) (value : list Byte.byte)
  | RawDelete (key : string).

Definition rawKey (e : RawEvent) : string :=
    match e with RawPut k _ => k | RawDelete k => k end.

Record Etcd := mkEtcd {
    kvs : gmap string KeyValue;
    leases : gmap LeaseID LeaseInfo;
    nextLease : LeaseID;
    clock : Z;
    history : list RawEvent
  }.

Definition emptyEtcd : Etcd := mkEtcd ∅ ∅ 0%nat 0 [].

  (** A staged store operation. *)
Inductive Op :=
  | OpPut (key : string) (kv : KeyValue)
  | OpDel (key : string).

Definition opKey (o : Op) : string :=
    match o with OpPut k _ => k | OpDel k => k end.

  (** Applying one operation: a put overwrites the key and is notified
      with its payload; deleting a present key removes it and is
      notified; deleting an absent key changes nothing. *)
Definition stmApply (s : Etcd) (o : Op) : Etcd :=
    match o with
    | OpPut k kv =>
        mkEtcd (<[k := kv]> (kvs s)) (leases s) (nextLease s) (clock s)
               (history s ++ [RawPut k (Value kv)])
    | OpDel k =>
        match kvs s !! k with
        | Some _ =>
            mkEtcd (delete k (kvs s)) (leases s) (nextLease s) (clock s)
                   (history s ++ [RawDelete k])
        | None => s
        end
    end.

  (** Operations are staged in order; later reads of the same
      transaction see them. *)
Definition stage (ops : list Op) (s : Etcd) : Etcd := foldl stmApply s ops.

  (** Lease creation: a fresh lease that ends [ttl] seconds from now. *)
Definition Grant (ttl : Z) (s : Etcd) : LeaseID * Etcd :=
    (nextLease s,
     mkEtcd (kvs s) (<[nextLease s := mkLease ttl (clock s + ttl)]> (leases s))
            (S (nextLease s)) (clock s) (history s)).

  (** A key is expired when its lease is gone or past its deadline. *)
Definition expired (ls : gmap LeaseID LeaseInfo) (now : Z) (kv : KeyValue) : bool :=
    match Lease kv with
    | None => false
    | Some l => match ls !! l with
                | Some li => bool_decide (Deadline li <= now)
                | None => true
                end
    end.

Definition keyLe : relation (string * KeyValue) := fun a b => String.le a.1 b.1.
#[export] Instance keyLe_dec : RelDecision keyLe.
  Proof. intros a b. unfold keyLe. apply _. Defined.

  (** Prefix range scan: the entries whose key starts with [p], in
      lexicographic key order. *)
Definition scan (p : string) (m : gmap string KeyValue) : list (string * KeyValue) :=
    merge_sort keyLe (filter (fun e => String.prefix p e.1 = true) (map_to_list m)).

  (** Time passing: the store removes every key whose lease has run
      out, notifies the removals in key order, and drops the leases. *)
Definition advance (dt : Z) (s : Etcd) : Etcd :=
    let now := clock s + dt in
    let dead := scan "" (filter (fun e => expired (leases s) now e.2 = true) (kvs s)) in
    mkEtcd (filter (fun e => expired (leases s) now e.2 = false) (kvs s))
           (filter (fun e => now < Deadline e.2) (leases s))
           (nextLease s) now
           (history s ++ ((fun e => RawDelete e.1) <$> dead)).

  (** *** Schema, transactions, views and watches *)

  Section Engine.
    (** The item codec ([Marshal]/[Unmarshal] of the record type) and the
        index key function's [stringify] are the collection's parameters. *)
    Context {Item FieldValue : Type}.
    Variable Marshal : Item -> list Byte.byte.
    Variable Unmarshal : list Byte.byte -> option Item.
    Variable stringify : FieldValue -> string.

    (** Modelled from the spec: section 3, an index's field selector
        extracts one value or a sequence of values from an item. *)
Inductive FieldSelector :=
    | One (f : Item -> FieldValue)
    | Many (f : Item -> list FieldValue).

Record Index := mkIndex { Field : string; selector : FieldSelector }.

Definition Multi (i : Index) : bool :=
      match selector i with One _ => false | Many _ => true end.

    (** [NewCollection(etcdClient, prefix, indexes, template, ...)] *)
Record collection := NewCollection { prefix : string; indexes : list Index }.

    (** Modelled from the spec: the key-space layout of section 6. *)
Definition Path (c : collection) (key : string) : string := prefix c +:+ key.

Definition indexRoot (c : collection) (i : Index) : string :=
      prefix c +:+ "__index_" +:+ Field i +:+ "/".

Definition indexDir (c : collection) (i : Index) (frag : string) : string :=
      indexRoot c i +:+ frag.

Definition indexPath (c : collection) (i : Index) (frag key : string) : string :=
      indexDir c i frag +:+ "/" +:+ key.

    (** Modelled from the spec: [indexEntries] of section 4.1, one
        fragment for a single-valued index, one per element without
        duplicates for a multi-valued one. *)
Definition indexEntries (i : Index) (item : Item) : list string :=
      match selector i with
      | One f => [stringify (f item)]
      | Many f => remove_dups (stringify <$> f item)
      end.

    (** **** Read-write transaction *)

    (** The transaction's working copy: the snapshot with the staged
        operations applied. *)
Definition STM := Etcd.

    (** The index operations of one index for a write of [key]: a delete
        for every previous fragment absent from the new set, then a write
        of the new payload for every new fragment absent from the previous
        set; fragments in both sets are left untouched. *)
Definition indexOps (c : collection) (key : string) (kv : KeyValue)
        (prev : option Item) (item : Item) (i : Index) : list Op :=
      let cur := indexEntries i item in
      let old := from_option (indexEntries i) [] prev in
      ((fun frag => OpDel (indexPath c i frag key)) <$> filter (fun frag => frag ∉ cur) old)
      ++ ((fun frag => OpPut (indexPath c i frag key) kv) <$> filter (fun frag => frag ∉ old) cur).

Definition putOps (c : collection) (key : string) (kv : KeyValue)
        (prev : option Item) (item : Item) : list Op :=
      OpPut (Path c key) kv :: mjoin (indexOps c key kv prev item <$> indexes c).

    (** Modelled from the spec: [Put] of section 4.3 (steps 1 to 3), with
        the lease that [PutTTL] attaches to every key it stages.  A
        byte-identical re-put stages nothing; under [PutTTL] the primary
        key is still re-associated with the new lease. *)
Definition putWith (lease : option LeaseID) (c : collection) (key : string)
        (item : Item) (s : STM) : result STM :=
      let new := mkKV (Marshal item) lease in
      match kvs s !! Path c key with
      | None => Ok (stage (putOps c key new None item) s)
      | Some cur =>
          match Unmarshal (Value cur) with
          | None => Err ErrUnmarshal
          | Some prev =>
              if decide (Value cur = Marshal item) then
                match lease with
                | None => Ok s
                | Some _ => Ok (stmApply s (OpPut (Path c key) new))
                end
              else Ok (stage (putOps c key new (Some prev) item) s)
          end
      end.

Definition Put : collection -> string -> Item -> STM -> result STM := putWith None.

Definition PutTTL (c : collection) (key : string) (item : Item) (ttl : Z)
        (s : STM) : result STM :=
      let '(lease, s) := Grant ttl s in putWith (Some lease) c key item s.

Definition deleteOps (c : collection) (key : string) (item : Item) : list Op :=
      OpDel (Path c key)
      :: mjoin ((fun i => (fun frag => OpDel (indexPath c i frag key)) <$> indexEntries i item)
                <$> indexes c).

    (** Modelled from the spec: [Delete] of section 4.3; reading the
        current item fails with NotFound when there is none. *)
Definition Delete (c : collection) (key : string) (s : STM) : result STM :=
      match kvs s !! Path c key with
      | None => Err ErrNotFound
      | Some cur =>
          match Unmarshal (Value cur) with
          | None => Err ErrUnmarshal
          | Some item => Ok (stage (deleteOps c key item) s)
          end
      end.

    (** Modelled from the spec: [NewSTM] of section 4.4 without
        concurrent writers: the body's staged operations are committed
        together, or not at all when the body fails. *)
Definition NewSTM (body : STM -> result STM) (etcdClient : Etcd) : Etcd * option Error :=
      match body etcdClient with
      | Ok s => (s, None)
      | Err e => (etcdClient, Some e)
      end.

    (** **** Read-only view (and the reads shared with transactions) *)

Definition Get (c : collection) (key : string) (s : Etcd) : result Item :=
      match kvs s !! Path c key with
      | None => Err ErrNotFound
      | Some kv => match Unmarshal (Value kv) with
                   | Some item => Ok item
                   | None => Err ErrUnmarshal
                   end
      end.

    (** Seconds remaining; NotFound when the key is absent or carries no lease. *)
Definition TTL (c : collection) (key : string) (s : Etcd) : result Z :=
      match kvs s !! Path c key with
      | None => Err ErrNotFound
      | Some kv =>
          match Lease kv with
          | None => Err ErrNotFound
          | Some l => match leases s !! l with
                      | Some li => Ok (Deadline li - clock s)
                      | None => Err ErrNotFound
                      end
          end
      end.

    (** An iterator holds the scanned entries, already paired with their
        record id, and the position of the next one. *)
Record iterator := mkIterator { index : nat; Kvs : list (string * list Byte.byte) }.

    (** The outcome of [iter.Next(&ID, item)]: [(true, nil)] with the
        outputs, [(false, nil)], or [(false, err)]. *)
Inductive NextResult :=
    | NextItem (ID : string) (item : Item)
    | NextDone
    | NextErr (e : Error).

Definition err (r : NextResult) : option Error :=
      match r with NextErr e => Some e | _ => None end.

Definition Next (it : iterator) : NextResult * iterator :=
      match Kvs it !! index it with
      | Some (id, payload) =>
          (match Unmarshal payload with
           | Some item => NextItem id item
           | None => NextErr ErrUnmarshal
           end,
           mkIterator (S (index it)) (Kvs it))
      | None => (NextDone, it)
      end.

    (** The prefix that selects one index value: the fragment followed
        by the separator. *)
Definition indexQuery (c : collection) (i : Index) (val : FieldValue) : string :=
      indexDir c i (stringify val) +:+ "/".

    (** Modelled from the spec: [GetByIndex] of section 4.2, a prefix
        scan whose payloads are decoded directly and whose record id is
        the trailing key segment. *)
Definition GetByIndex (c : collection) (i : Index) (val : FieldValue) (s : Etcd) : iterator :=
      mkIterator 0 ((fun e => (trailingSegment e.1, Value e.2)) <$> scan (indexQuery c i val) (kvs s)).

    (** Modelled from the spec: [List] of section 4.2, the scan of the
        whole namespace. *)
Definition List (c : collection) (s : Etcd) : iterator :=
      mkIterator 0 ((fun e => (dropPrefix (prefix c) e.1, Value e.2)) <$> scan (prefix c) (kvs s)).

    (** Everything an iterator yields from its current position on. *)
Fixpoint drain (fuel : nat) (it : iterator) : list NextResult :=
      match fuel with
      | O => []
      | S n => let '(r, it') := Next it in r :: drain n it'
      end.

    (** The (id, item) pairs of an iterator's remaining entries that decode. *)
Definition yields (it : iterator) : list (string * Item) :=
      omap (fun e => pair e.1 <$> Unmarshal e.2) (drop (index it) (Kvs it)).

    (** **** Watches *)

Inductive Scope := ScopeKey (key : string) | ScopePrefix (p : string).

Definition inScope (sc : Scope) (k : string) : bool :=
      match sc with
      | ScopeKey key => bool_decide (k = key)
      | ScopePrefix p => String.prefix p k
      end.

    (** A subscription: its scope, the entries present when it was
        opened (delivered first, as [TestIndexWatch] observes for a
        record put before [WatchByIndex]), and the position of the
        change feed from which it follows. *)
Record Watcher := mkWatcher { scope : Scope; backlog : list RawEvent; since : nat }.

Inductive Event :=
    | EventPut (ID : string) (item : Item)
    | EventDelete (ID : string)
    | EventError (e : Error).

Definition subscribe (sc : Scope) (s : Etcd) : Watcher :=
      mkWatcher sc
        ((fun e => RawPut e.1 (Value e.2))
           <$> filter (fun e => inScope sc e.1 = true) (scan "" (kvs s)))
        (length (history s)).

Definition Watch (c : collection) (key : string) (s : Etcd) : Watcher :=
      subscribe (ScopeKey (Path c key)) s.

Definition WatchByIndex (c : collection) (i : Index) (val : FieldValue) (s : Etcd) : Watcher :=
      subscribe (ScopePrefix (indexQuery c i val)) s.

    (** Modelled from the spec: the translator of section 4.5; [last] is
        the value last delivered per key. *)
Fixpoint translate (last : gmap string (list Byte.byte)) (raw : list RawEvent) : list Event :=
      match raw with
      | [] => []
      | RawPut k v :: raw =>
          if decide (last !! k = Some v) then translate last raw
          else match Unmarshal v with
               | Some item => EventPut (trailingSegment k) item
               | None => EventError ErrUnmarshal
               end :: translate (<[k := v]> last) raw
      | RawDelete k :: raw =>
          EventDelete (trailingSegment k) :: translate (delete k last) raw
      end.

    (** The raw notifications a watcher has received once the store is in state [s]. *)
Definition rawFeed (w : Watcher) (s : Etcd) : list RawEvent :=
      backlog w ++ filter (fun e => inScope (scope w) (rawKey e) = true) (drop (since w) (history s)).

    (** The typed events on the watcher's channel, in delivery order. *)
Definition events (w : Watcher) (s : Etcd) : list Event := translate ∅ (rawFeed w s).
  End Engine.

  (** *** Runs of single-operation transactions *)

  Section Runs.
    Context {Item FieldValue : Type}.
    Variable Marshal : Item -> list Byte.byte.
    Variable Unmarshal : list Byte.byte -> option Item.
    Variable stringify : FieldValue -> string.

Inductive Cmd :=
    | CmdPut (key : string) (item : Item)
    | CmdDelete (key : string).

Definition cmdKey (cmd : Cmd) : string :=
      match cmd with CmdPut k _ => k | CmdDelete k => k end.

Definition cmdBody (c : collection) (cmd : Cmd) : STM -> result STM :=
      match cmd with
      | CmdPut k x => Put Marshal Unmarshal stringify c k x
      | CmdDelete k => Delete Unmarshal stringify c k
      end.

    (** Each command runs in a transaction of its own; a failed one
        leaves the store as it was. *)
Definition run1 (c : collection) (s : Etcd) (cmd : Cmd) : Etcd :=
      (NewSTM (cmdBody c cmd) s).1.

Definition run (c : collection) (cmds : list Cmd) (s : Etcd) : Etcd :=
      foldl (run1 c) s cmds.

    (** Record ids must not contain the separator. *)
Definition okKeys (cmds : list Cmd) : Prop :=
      Forall (fun cmd => hasSlash (cmdKey cmd) = false) cmds.

    (** Index field names must not contain the separator and must be
        pairwise different. *)
Definition okSchema (c : collection (Item := Item) (FieldValue := FieldValue)) : Prop :=
      Forall (fun i => hasSlash (Field i) = false) (indexes c)
      /\ NoDup (Field <$> indexes c).

    (** The record ids an iterator has left to yield. *)
Definition ids (it : iterator) : list string := (drop (index it) (Kvs it)).*1.
  End Runs.

(** *** What staged operations do to one key, and the index invariant *)

(** What a list of operations does to one key. *)
Definition effect (k : string) (ops : list Op) (o : option KeyValue) : option KeyValue :=
  foldl (fun o op =>
           match op with
           | OpPut k' kv => if decide (k' = k) then Some kv else o
           | OpDel k' => if decide (k' = k) then None else o
           end) o ops.


Section Invariant.
Context {Item FieldValue : Type}.
Variable Marshal : Item -> list Byte.byte.
Variable stringify : FieldValue -> string.

(** The index invariant of section 3, over the keys of a store: every
    key is the primary key of a record or one of its index entries and
    holds an encoded item ([U] tells which items were put under which
    id), and a record has an index entry for a fragment exactly when its
    current item produces the fragment. *)
Record Inv (c : collection (Item := Item) (FieldValue := FieldValue))
    (U : string -> Item -> Prop) (s : Etcd) : Prop := mkInv {
  inv_keys : forall k kv, kvs s !! k = Some kv ->
    (exists key x, hasSlash key = false /\ k = Path c key
                   /\ Value kv = Marshal x /\ U key x)
    \/ (exists i frag key x, i ∈ indexes c /\ hasSlash key = false
                   /\ k = indexPath c i frag key /\ Value kv = Marshal x
                   /\ frag ∈ indexEntries stringify i x /\ U key x);
  inv_index : forall i frag key, i ∈ indexes c -> hasSlash key = false ->
    (is_Some (kvs s !! indexPath c i frag key)
     <-> exists kv x, kvs s !! Path c key = Some kv /\ Value kv = Marshal x
                      /\ frag ∈ indexEntries stringify i x)
}.
End Invariant.

End Collection.

(** ** The fixtures and scenarios of collection_test.go *)

Module CollectionTest.
  Import Collection.

  (** *** Item codecs

      The tests store protobuf messages; their generated codecs are
      outside the sources at hand.  [BoolValue] is small enough to give
      its wire form; for the two record types a self-delimiting stand-in
      format keeps what the engine relies on: decoding inverts encoding. *)

Definition encBytes (bs : list Byte.byte) : list Byte.byte :=
    flat_map (fun b => [Byte.x01; b]) bs ++ [Byte.x00].

Fixpoint decBytes (l : list Byte.byte) : option (list Byte.byte * list Byte.byte) :=
    match l with
    | Byte.x00 :: rest => Some ([], rest)
    | Byte.x01 :: b :: rest =>
        match decBytes rest with
        | Some (bs, rest') => Some (b :: bs, rest')
        | None => None
        end
    | _ => None
    end.

Definition encString (s : string) : list Byte.byte :=
    encBytes (String.list_byte_of_string s).

Definition decString (l : list Byte.byte) : option (string * list Byte.byte) :=
    match decBytes l with
    | Some (bs, rest) => Some (String.string_of_list_byte bs, rest)
    | None => None
    end.

  (** [pps.JobInfo] with the fields the tests set. *)
Record Job := mkJob { JobID : string }.
Record Pipeline := mkPipeline { Name : string }.
Record JobInfo := mkJobInfo { JobInfo_Job : Job; JobInfo_Pipeline : Pipeline }.

Definition JobInfo_Marshal (j : JobInfo) : list Byte.byte :=
    encString (JobID (JobInfo_Job j)) ++ encString (Name (JobInfo_Pipeline j)).

Definition JobInfo_Unmarshal (l : list Byte.byte) : option JobInfo :=
    match decString l with
    | Some (job, rest) =>
        match decString rest with
        | Some (pipeline, []) => Some (mkJobInfo (mkJob job) (mkPipeline pipeline))
        | _ => None
        end
    | None => None
    end.

Definition Pipeline_stringify (p : Pipeline) : string := Name p.

  (** [pfs.CommitInfo] with the fields the tests set;
      [client.NewCommit(repo, id)] builds a [Commit]. *)
Record Commit := NewCommit { Repo : string; CommitID : string }.
Record CommitInfo := mkCommitInfo { CommitInfo_Commit : Commit; Provenance : list Commit }.

Definition encCommit (c : Commit) : list Byte.byte :=
    encString (Repo c) ++ encString (CommitID c).

Definition decCommit (l : list Byte.byte) : option (Commit * list Byte.byte) :=
    match decString l with
    | Some (repo, rest) =>
        match decString rest with
        | Some (id, rest') => Some (NewCommit repo id, rest')
        | None => None
        end
    | None => None
    end.

Fixpoint decCommits (n : nat) (l : list Byte.byte) : option (list Commit * list Byte.byte) :=
    match n with
    | O => Some ([], l)
    | S n =>
        match decCommit l with
        | Some (c, rest) =>
            match decCommits n rest with
            | Some (cs, rest') => Some (c :: cs, rest')
            | None => None
            end
        | None => None
        end
    end.

Definition CommitInfo_Marshal (ci : CommitInfo) : list Byte.byte :=
    encCommit (CommitInfo_Commit ci)
    ++ encBytes (replicate (length (Provenance ci)) Byte.x00)
    ++ flat_map encCommit (Provenance ci).

Definition CommitInfo_Unmarshal (l : list Byte.byte) : option CommitInfo :=
    match decCommit l with
    | Some (c, rest) =>
        match decBytes rest with
        | Some (count, rest') =>
            match decCommits (length count) rest' with
            | Some (prov, []) => Some (mkCommitInfo c prov)
            | _ => None
            end
        | None => None
        end
    | None => None
    end.

  (** A two-part reference renders as ["repo/id"]. *)
Definition Commit_stringify (c : Commit) : string := Repo c +:+ "/" +:+ CommitID c.

  (** [types.BoolValue]: field 1 as a varint, omitted when false. *)
Definition BoolValue_Marshal (b : bool) : list Byte.byte :=
    if b then [Byte.x08; Byte.x01] else [].

Definition BoolValue_Unmarshal (l : list Byte.byte) : option bool :=
    match l with
    | [] => Some false
    | [Byte.x08; Byte.x01] => Some true
    | [Byte.x08; Byte.x00] => Some false
    | _ => None
    end.

Definition Bool_stringify (b : bool) : string := if b then "true" else "false".

  (** *** The indexes and collections of the tests *)

Definition pipelineIndex : Index (Item := JobInfo) (FieldValue := Pipeline) :=
    mkIndex "Pipeline" (One JobInfo_Pipeline).

Definition commitMultiIndex : Index (Item := CommitInfo) (FieldValue := Commit) :=
    mkIndex "Provenance" (Many Provenance).

Definition valueIndex : Index (Item := bool) (FieldValue := bool) :=
    mkIndex "Value" (One (fun b => b)).

Definition jobInfos (uuidPrefix : string) : collection := NewCollection uuidPrefix [pipelineIndex].
Definition cis (uuidPrefix : string) : collection := NewCollection uuidPrefix [commitMultiIndex].
Definition boolValues (uuidPrefix : string) : collection := NewCollection uuidPrefix [valueIndex].
  (** [NewCollection(etcdClient, uuidPrefix, nil, &types.BoolValue{}, nil)] *)
Definition clxn (uuidPrefix : string) : collection (Item := bool) (FieldValue := bool) :=
    NewCollection uuidPrefix [].

Definition jPut := Put JobInfo_Marshal JobInfo_Unmarshal Pipeline_stringify.
Definition jDelete := Delete JobInfo_Unmarshal Pipeline_stringify.
Definition cPut := Put CommitInfo_Marshal CommitInfo_Unmarshal Commit_stringify.
Definition cDelete := Delete CommitInfo_Unmarshal Commit_stringify.
Definition bPut := Put BoolValue_Marshal BoolValue_Unmarshal Bool_stringify.
Definition bPutTTL := PutTTL BoolValue_Marshal BoolValue_Unmarshal Bool_stringify.

  (** *** TestIndex *)

Definition j1 := mkJobInfo (mkJob "j1") (mkPipeline "p1").
Definition j2 := mkJobInfo (mkJob "j2") (mkPipeline "p1").
Definition j3 := mkJobInfo (mkJob "j3") (mkPipeline "p2").

Definition TestIndex_store (uuidPrefix : string) : Etcd :=
    (NewSTM (fun stm =>
       stm ← jPut (jobInfos uuidPrefix) (JobID (JobInfo_Job j1)) j1 stm;
       stm ← jPut (jobInfos uuidPrefix) (JobID (JobInfo_Job j2)) j2 stm;
       jPut (jobInfos uuidPrefix) (JobID (JobInfo_Job j3)) j3 stm) emptyEtcd).1.

  (** *** TestIndexWatch: the store after each transaction, and the watcher *)

Definition j1Prime := mkJobInfo (mkJob "j1") (mkPipeline "p3").

Definition TestIndexWatch_store0 (uuidPrefix : string) : Etcd :=
    (NewSTM (jPut (jobInfos uuidPrefix) "j1" j1) emptyEtcd).1.
Definition TestIndexWatch_watcher (uuidPrefix : string) : Watcher :=
    WatchByIndex Pipeline_stringify (jobInfos uuidPrefix) pipelineIndex
      (JobInfo_Pipeline j1) (TestIndexWatch_store0 uuidPrefix).
Definition TestIndexWatch_store1 (uuidPrefix : string) : Etcd :=
    (NewSTM (jPut (jobInfos uuidPrefix) "j1" j1) (TestIndexWatch_store0 uuidPrefix)).1.
Definition TestIndexWatch_store2 (uuidPrefix : string) : Etcd :=
    (NewSTM (jPut (jobInfos uuidPrefix) "j2" j2) (TestIndexWatch_store1 uuidPrefix)).1.
Definition TestIndexWatch_store3 (uuidPrefix : string) : Etcd :=
    (NewSTM (jPut (jobInfos uuidPrefix) "j1" j1Prime) (TestIndexWatch_store2 uuidPrefix)).1.
Definition TestIndexWatch_store4 (uuidPrefix : string) : Etcd :=
    (NewSTM (jDelete (jobInfos uuidPrefix) "j2") (TestIndexWatch_store3 uuidPrefix)).1.

  (** *** TestMultiIndex *)

Definition c1 := mkCommitInfo (NewCommit "repo" "c1")
    [NewCommit "in" "c1"; NewCommit "in" "c2"; NewCommit "in" "c3"].
Definition c2 := mkCommitInfo (NewCommit "repo" "c2")
    [NewCommit "in" "c1"; NewCommit "in" "c2"; NewCommit "in" "c3"].
  (** [c1.Provenance[2].ID = "c4"] *)
Definition c1' := mkCommitInfo (NewCommit "repo" "c1")
    [NewCommit "in" "c1"; NewCommit "in" "c2"; NewCommit "in" "c4"].

Definition TestMultiIndex_store0 (uuidPrefix : string) : Etcd :=
    (NewSTM (fun stm =>
       stm ← cPut (cis uuidPrefix) (CommitID (CommitInfo_Commit c1)) c1 stm;
       cPut (cis uuidPrefix) (CommitID (CommitInfo_Commit c2)) c2 stm) emptyEtcd).1.
Definition TestMultiIndex_store1 (uuidPrefix : string) : Etcd :=
    (NewSTM (cPut (cis uuidPrefix) "c1" c1') (TestMultiIndex_store0 uuidPrefix)).1.
Definition TestMultiIndex_store2 (uuidPrefix : string) : Etcd :=
    (NewSTM (cDelete (cis uuidPrefix) "c1") (TestMultiIndex_store1 uuidPrefix)).1.

  (** *** TestBoolIndex *)

Definition TestBoolIndex_store (uuidPrefix : string) : Etcd :=
    (NewSTM (fun stm =>
       stm ← bPut (boolValues uuidPrefix) "true" true stm;
       bPut (boolValues uuidPrefix) "false" false stm) emptyEtcd).1.

  (** [bytes.Contains(key, sub)] *)
Fixpoint contains (sub s : string) : bool :=
    String.prefix sub s
    || match s with
       | EmptyString => false
       | String _ r => contains sub r
       end.

  (** *** TestTTL, TestTTLExpire, TestTTLExtend *)

Definition epsilon : bool := true.

Definition TestTTL_store (uuidPrefix : string) (ttl : Z) (s : Etcd) : Etcd :=
    (NewSTM (bPutTTL (clxn uuidPrefix) "key" epsilon ttl) s).1.

  (** A sample of [uuid.NewWithoutDashes()]. *)
Definition sampleUUID : string := "0f2b7c1e9a4d4c6f8b3a5d7e1c2f4a6b".

End CollectionTest.

(** * Properties *)

(** ** Deployment defaults *)

Section AssetsFacts.
  Import Assets.

Lemma keepOr_empty default : keepOr "" default = default.
  Proof. reflexivity. Qed.

Lemma keepOr_set old default : old <> "" -> keepOr old default = old.
  Proof. intros H. unfold keepOr. by case_decide. Qed.

  (** C10: [fillDefaultResourceRequests] gives each of [BlockCacheSize],
      [PachdNonCacheMemRequest], [PachdCPURequest], [EtcdMemRequest] and
      [EtcdCPURequest] a default exactly when the field is the empty
      string and keeps it otherwise ([keepOr]); the default is picked by
      the single test "is the persistent-disk backend the local one";
      every other field of the options is returned as it was. *)
Theorem fillDefaultResourceRequests_frame (opts : AssetOpts) (b : backend) :
    let opts' := fillDefaultResourceRequests opts b in
    let isLocal := bool_decide (b = localBackend) in
    (BlockCacheSize opts' = keepOr (BlockCacheSize opts) (if isLocal then "256M" else "1G")
     /\ PachdNonCacheMemRequest opts'
        = keepOr (PachdNonCacheMemRequest opts) (if isLocal then "256M" else "2G")
     /\ PachdCPURequest opts' = keepOr (PachdCPURequest opts) (if isLocal then "0.25" else "1")
     /\ EtcdMemRequest opts' = keepOr (EtcdMemRequest opts) (if isLocal then "256M" else "2G")
     /\ EtcdCPURequest opts' = keepOr (EtcdCPURequest opts) (if isLocal then "0.25" else "1"))
    /\ (PachdShards opts' = PachdShards opts
        /\ Version opts' = Version opts
        /\ LogLevel opts' = LogLevel opts
        /\ Metrics opts' = Metrics opts
        /\ Dynamic opts' = Dynamic opts
        /\ EtcdNodes opts' = EtcdNodes opts
        /\ EtcdVolume opts' = EtcdVolume opts
        /\ DashOnly opts' = DashOnly opts
        /\ NoDash opts' = NoDash opts
        /\ DashImage opts' = DashImage opts
        /\ Registry opts' = Registry opts
        /\ EtcdPrefix opts' = EtcdPrefix opts
        /\ NoGuaranteed opts' = NoGuaranteed opts
        /\ DisableAuthentication opts' = DisableAuthentication opts
        /\ IAMRole opts' = IAMRole opts
        /\ ImagePullSecret opts' = ImagePullSecret opts
        /\ NoRBAC opts' = NoRBAC opts
        /\ Namespace opts' = Namespace opts).
  Proof.
    destruct opts as [? ? ? ? ? ? ? ? ? ? ? ? ? ? bcs cpu mem ecpu emem ? ? ? ?].
    cbv zeta. unfold fillDefaultResourceRequests, fillIfEmpty, keepOr.
    destruct (decide (b = localBackend)) as [Hb|Hb];
      [rewrite (bool_decide_eq_true_2 _ Hb) | rewrite (bool_decide_eq_false_2 _ Hb)];
      cbn [BlockCacheSize PachdNonCacheMemRequest PachdCPURequest EtcdMemRequest
           EtcdCPURequest set_BlockCacheSize set_PachdNonCacheMemRequest
           set_PachdCPURequest set_EtcdMemRequest set_EtcdCPURequest];
      destruct (decide (bcs = "")); cbn;
      destruct (decide (mem = "")); cbn;
      destruct (decide (cpu = "")); cbn;
      destruct (decide (emem = "")); cbn;
      destruct (decide (ecpu = "")); cbn;
      repeat split; reflexivity.
  Qed.
End AssetsFacts.

(** ** Deployment manifests *)

Ltac in_list := solve [repeat constructor].

Ltac backends :=
  unfold Assets.localBackend, Assets.amazonBackend, Assets.googleBackend,
    Assets.microsoftBackend, Assets.minioBackend in *.

Section ManifestFacts.
Import Assets Manifest.

(** *** What [fillDefaultResourceRequests] leaves and what it fills *)

Lemma fillIfEmpty_frame {A} (f : AssetOpts -> A) get set v o :
  (forall v o, f (set v o) = f o) -> f (fillIfEmpty get set v o) = f o.
Proof. intros H. unfold fillIfEmpty. by case_decide. Qed.

Lemma fillIfEmpty_filled get set v o :
  v <> "" -> (forall v o, get (set v o) = v) -> get (fillIfEmpty get set v o) <> "".
Proof. intros Hv H. unfold fillIfEmpty. case_decide; [by rewrite H|done]. Qed.

Lemma fill_frame {A} (f : AssetOpts -> A) opts b :
  (forall v o, f (set_BlockCacheSize v o) = f o) ->
  (forall v o, f (set_PachdNonCacheMemRequest v o) = f o) ->
  (forall v o, f (set_PachdCPURequest v o) = f o) ->
  (forall v o, f (set_EtcdMemRequest v o) = f o) ->
  (forall v o, f (set_EtcdCPURequest v o) = f o) ->
  f (fillDefaultResourceRequests opts b) = f opts.
Proof.
  intros. unfold fillDefaultResourceRequests.
  case_decide; by rewrite !fillIfEmpty_frame.
Qed.

Lemma fill_DashOnly opts b : DashOnly (fillDefaultResourceRequests opts b) = DashOnly opts.
Proof. by apply fill_frame. Qed.
Lemma fill_NoRBAC opts b : NoRBAC (fillDefaultResourceRequests opts b) = NoRBAC opts.
Proof. by apply fill_frame. Qed.
Lemma fill_NoDash opts b : NoDash (fillDefaultResourceRequests opts b) = NoDash opts.
Proof. by apply fill_frame. Qed.

(** The five resource requests are set. *)
Definition requestsFilled (o : AssetOpts) : Prop :=
  BlockCacheSize o <> "" /\ PachdNonCacheMemRequest o <> "" /\ PachdCPURequest o <> ""
  /\ EtcdMemRequest o <> "" /\ EtcdCPURequest o <> "".

Lemma fill_requestsFilled opts b : requestsFilled (fillDefaultResourceRequests opts b).
Proof.
  unfold requestsFilled, fillDefaultResourceRequests.
  case_decide; repeat split.
  all: repeat (rewrite fillIfEmpty_frame by reflexivity).
  all: by apply fillIfEmpty_filled.
Qed.


Lemma fill_filled o b : requestsFilled o -> fillDefaultResourceRequests o b = o.
Proof.
  intros (? & ? & ? & ? & ?). unfold fillDefaultResourceRequests, fillIfEmpty.
  case_decide;
    rewrite (decide_False (P := BlockCacheSize o = "")) by done;
    rewrite (decide_False (P := PachdNonCacheMemRequest o = "")) by done;
    rewrite (decide_False (P := PachdCPURequest o = "")) by done;
    rewrite (decide_False (P := EtcdMemRequest o = "")) by done;
    by rewrite (decide_False (P := EtcdCPURequest o = "")) by done.
Qed.

(** X10: after [fillDefaultResourceRequests] none of the five resource
    requests is empty, whatever the options and the backend were. *)
Theorem fillDefaultResourceRequests_fills (opts : AssetOpts) (b : backend) :
  requestsFilled (fillDefaultResourceRequests opts b).
Proof. apply fill_requestsFilled. Qed.

(** X11: [fillDefaultResourceRequests] is idempotent, also across
    backends: options that went through it once are not changed by a
    second call, so the defaults of the first backend stay. *)
Theorem fillDefaultResourceRequests_idempotent (opts : AssetOpts) (b b' : backend) :
  fillDefaultResourceRequests (fillDefaultResourceRequests opts b) b'
  = fillDefaultResourceRequests opts b.
Proof. apply fill_filled, fill_requestsFilled. Qed.

(** *** What reaches the writer *)

(** A list of objects as it is written: each one encoded and followed
    by a line break. *)
Definition docs (ds : list Doc) : Writer := ds ≫= (fun d => [Encode d; Newline]).


(** The objects written before the etcd options are looked at, and the
    dashboard's. *)
Definition accountDocs (o : AssetOpts) : list Doc :=
  DocServiceAccount o
  :: (if NoRBAC o then [] else [DocClusterRole o; DocClusterRoleBinding o]).










(** *** Storage class *)

(** X12: [EtcdStorageClass] never returns an error; it returns a storage
    class, in the namespace of the options, for the Google and Amazon
    backends and [nil] for every other backend. *)
Theorem EtcdStorageClass_result (opts : AssetOpts) (b : backend) :
  (EtcdStorageClass opts b).2 = None
  /\ ((EtcdStorageClass opts b).1 = None <-> b <> googleBackend /\ b <> amazonBackend)
  /\ (forall sc, (EtcdStorageClass opts b).1 = Some sc ->
        scNamespace sc = Namespace opts
        /\ (scProvisioner sc = "kubernetes.io/gce-pd" <-> b = googleBackend)
        /\ (scProvisioner sc = "kubernetes.io/aws-ebs" <-> b = amazonBackend)).
Proof.
  unfold EtcdStorageClass. backends.
  repeat case_decide; cbn [fst snd]; repeat split; try done; try tauto;
    try (intros; simplify_eq; cbn; repeat split; try done; intros; lia).
Qed.

(** *** Splitting names at the slash *)

(** Whether [sep] occurs in [s]. *)
Fixpoint hasSep (sep : ascii) (s : string) : bool :=
  match s with
  | EmptyString => false
  | String c s' => if decide (c = sep) then true else hasSep sep s'
  end.

Lemma app_String c (a b : string) : String c a +:+ b = String c (a +:+ b).
Proof. reflexivity. Qed.

Lemma app_Empty (b : string) : EmptyString +:+ b = b.
Proof. reflexivity. Qed.

Lemma app_String_assoc (a b c : string) : (a +:+ b) +:+ c = a +:+ (b +:+ c).
Proof. induction a as [|x a IH]; [done|]. rewrite !app_String. by rewrite IH. Qed.

Lemma hasSep_iff sep s : hasSep sep s = true <-> exists a b, s = a +:+ String sep b.
Proof.
  split.
  - induction s as [|c s IH]; simpl; [done|].
    case_decide as Hc.
    + intros _. subst c. by exists EmptyString, s.
    + intros Hs. destruct (IH Hs) as (a & b & ->). by exists (String c a), b.
  - intros (a & b & ->). induction a as [|c a IH].
    + rewrite ?app_Empty. simpl. by rewrite decide_True.
    + rewrite ?app_String. simpl. by case_decide.
Qed.

Lemma Split_nonempty s sep : Split s sep <> [].
Proof. destruct s as [|c s]; simpl; [done|]. case_decide; [done|]. by destruct (Split s sep). Qed.

Lemma Split_noSep s sep : hasSep sep s = false -> Split s sep = [s].
Proof.
  induction s as [|c s IH]; simpl; [done|].
  case_decide; [done|]. intros Hs. by rewrite (IH Hs).
Qed.

Lemma Split_app a b sep :
  hasSep sep a = false -> Split (a +:+ String sep b) sep = a :: Split b sep.
Proof.
  induction a as [|c a IH]; simpl.
  - intros _. by rewrite decide_True.
  - case_decide; [done|]. intros Hs. by rewrite (IH Hs).
Qed.

Lemma Split_length s sep : hasSep sep s = true -> (2 <= length (Split s sep))%nat.
Proof.
  intros (a & b & ->)%hasSep_iff. revert b. induction a as [|c a IH]; intros b.
  - rewrite ?app_Empty. simpl. rewrite decide_True by done.
    pose proof (Split_nonempty b sep). destruct (Split b sep); [done|]. simpl. lia.
  - rewrite ?app_String. simpl. case_decide.
    + pose proof (Split_nonempty (a +:+ String sep b) sep).
      destruct (Split (a +:+ String sep b) sep); [done|]. simpl. lia.
    + specialize (IH b). destruct (Split (a +:+ String sep b) sep); simpl in *; lia.
Qed.

(** Each piece followed by the separator. *)
Fixpoint withSep (sep : ascii) (ps : list string) : string :=
  match ps with
  | [] => EmptyString
  | p :: ps => p +:+ String sep (withSep sep ps)
  end.

Lemma Split_last s sep :
  exists init l,
    Split s sep = init ++ [l] /\ s = withSep sep init +:+ l /\ hasSep sep l = false.
Proof.
  induction s as [|c s (init & l & HS & Hs & Hl)]; simpl.
  - by exists [], EmptyString.
  - case_decide as Hc.
    + subst c. exists (EmptyString :: init), l. rewrite HS. repeat split; [|done].
      simpl. rewrite ?app_Empty, ?app_String. by rewrite <- Hs.
    + rewrite HS. destruct init as [|p q]; simpl in *.
      * exists [], (String c l). repeat split.
        -- rewrite ?app_Empty in *. by subst s.
        -- simpl. by rewrite decide_False.
      * exists (String c p :: q), l. repeat split; [|done].
        simpl. rewrite ?app_String. by rewrite <- Hs.
Qed.

Lemma withSep_end sep ps :
  withSep sep ps = EmptyString \/ exists d, withSep sep ps = d +:+ String sep EmptyString.
Proof.
  induction ps as [|p ps IH]; simpl; [by left|]. right.
  destruct IH as [->|(d & ->)].
  - by exists p.
  - exists (p +:+ String sep d). by rewrite app_String_assoc.
Qed.

End ManifestFacts.

Section RegistryFacts.
Import Assets Manifest.
Variable pathJoin : list string -> string.

(** *** [AddRegistry] *)

Lemma AddRegistry_panics_spec (registry imageName : string) :
  AddRegistry pathJoin registry imageName = None
  <-> ~ exists a b, imageName = a +:+ "/" +:+ b.
Proof.
  change (AddRegistry pathJoin registry imageName = None
          <-> ~ exists a b, imageName = a +:+ String "/" b).
  rewrite <- hasSep_iff. unfold AddRegistry.
  destruct (hasSep "/" imageName) eqn:H.
  - apply Split_length in H.
    destruct (Split imageName "/") as [|p0 [|p1 [|p2 [|p3 rest]]]]; simpl in H; try lia;
      repeat case_decide; simpl in *; try done; try lia.
  - rewrite (Split_noSep _ _ H). simpl. by case_decide.
Qed.

(** X13: [AddRegistry] panics (indexes its parts out of range) exactly
    when the image name contains no slash. *)
Theorem AddRegistry_panics_iff (registry imageName : string) :
  AddRegistry pathJoin registry imageName = None
  <-> ~ exists a b, imageName = a +:+ "/" +:+ b.
Proof. apply AddRegistry_panics_spec. Qed.


(** X14: on a name of three slash-free segments [AddRegistry] drops the
    first one: the result is that for the last two segments alone,
    which is the join of the registry, when one is given, and the two
    segments. *)
Theorem AddRegistry_replaces_registry (registry a b c : string) :
  hasSep "/" a = false -> hasSep "/" b = false -> hasSep "/" c = false ->
  AddRegistry pathJoin registry (a +:+ "/" +:+ b +:+ "/" +:+ c)
  = AddRegistry pathJoin registry (b +:+ "/" +:+ c)
  /\ AddRegistry pathJoin registry (b +:+ "/" +:+ c)
     = Some (pathJoin (if decide (registry <> "") then [registry; b; c] else [b; c])).
Proof.
  intros Ha Hb Hc. unfold AddRegistry.
  change (a +:+ "/" +:+ b +:+ "/" +:+ c) with (a +:+ String "/" (b +:+ String "/" c)).
  change (b +:+ "/" +:+ c) with (b +:+ String "/" c).
  rewrite !Split_app, (Split_noSep c) by done. simpl.
  by case_decide.
Qed.

(** X15: the images that the deployment itself names, with or without a
    version, all contain a slash, so [AddRegistry] does not panic on
    them, whatever the version and the registry are. *)
Theorem AddRegistry_own_images (registry : string) (opts : AssetOpts) :
  Forall (fun image => AddRegistry pathJoin registry image <> None)
    [versionedPachdImage opts; versionedWorkerImage opts; etcdImage; grpcProxyImage].
Proof.
  assert (H : forall rest, AddRegistry pathJoin registry ("pachyderm/" +:+ rest) <> None).
  { intros rest. rewrite AddRegistry_panics_spec. intros []. by exists "pachyderm", rest. }
  unfold versionedPachdImage, versionedWorkerImage.
  repeat constructor.
  - case_decide; [apply (H ("pachd:" +:+ Version opts)) | apply (H "pachd")].
  - case_decide; [apply (H ("worker:" +:+ Version opts)) | apply (H "worker")].
  - apply (H "etcd:v3.2.7").
  - apply (H "grpc-proxy:0.4.2").
Qed.

End RegistryFacts.

Section WriterFacts.
Import Assets Manifest.
Variable filepathJoin : list string -> string.





(** X17: when [WriteAssets] fails on the backend check nothing has been
    written and the options are as they were; when it fails later (on
    the etcd options or an unknown persistent-disk backend) the
    options have their defaults and the service account, with the
    cluster role and its binding unless [NoRBAC], are already written. *)
Theorem WriteAssets_error_output (w : Writer) (opts : AssetOpts) (obj pd : backend)
    (size : Z) (hostPath : string) (err : error) :
  (Manifest.WriteAssets filepathJoin w opts obj pd size hostPath).2 = Some err ->
  (err = ErrLocalMismatch pd obj
   /\ (Manifest.WriteAssets filepathJoin w opts obj pd size hostPath).1 = (w, opts))
  \/ (err ∈ [ErrBothEtcdOptions; ErrNoEtcdOption; ErrUnknownBackend pd]
      /\ (Manifest.WriteAssets filepathJoin w opts obj pd size hostPath).1
         = (w ++ docs (accountDocs (fillDefaultResourceRequests opts pd)),
            fillDefaultResourceRequests opts pd)).
Proof.
  unfold Manifest.WriteAssets. set (o := fillDefaultResourceRequests opts pd).
  clearbody o. unfold accountDocs.
  case_decide as Hm; [simpl; intros [= <-]; by left |].
  destruct (DashOnly o); [done|].
  assert (Hacc : (if negb (NoRBAC o)
                  then encode (encode (encode w (DocServiceAccount o)) (DocClusterRole o))
                         (DocClusterRoleBinding o)
                  else encode w (DocServiceAccount o))
                 = w ++ docs (DocServiceAccount o
                              :: (if NoRBAC o then []
                                  else [DocClusterRole o; DocClusterRoleBinding o]))).
  { destruct (NoRBAC o); simpl; unfold encode; by rewrite <- ?app_assoc. }
  rewrite Hacc. clear Hacc.
  case_decide as Hb; [simpl; intros [= <-]; right; split; [in_list | done] |].
  case_decide as Hl; [done|].
  case_decide as Hn.
  { unfold EtcdStorageClass. by repeat case_decide. }
  case_decide as Hv.
  - unfold Manifest.EtcdVolume.
    repeat case_decide; simpl; try done; intros [= <-]; right; split; [in_list | done].
  - simpl. intros [= <-]. right. split; [in_list | done].
Qed.







Lemma WriteAssets_opts_spec (w : Writer) (opts : AssetOpts) (obj pd : backend)
    (size : Z) (hostPath : string) :
  (Manifest.WriteAssets filepathJoin w opts obj pd size hostPath).1.2
  = if decide ((pd = localBackend \/ obj = localBackend) /\ pd <> obj) then opts
    else fillDefaultResourceRequests opts pd.
Proof.
  unfold Manifest.WriteAssets. case_decide; [done|].
  destruct (DashOnly _); [done|]. case_decide; [done|].
  unfold EtcdStorageClass, Manifest.EtcdVolume. by repeat case_decide.
Qed.

(** X22: after a successful Amazon deployment that is not dashboard-only,
    the last object written is the secret.  It holds the direct
    credentials when both the id and the secret key are given, else the
    Vault credentials when both the role and the token are given, else
    no data at all. *)
Theorem WriteAmazonAssets_secret (w : Writer) (opts : AssetOpts) (region bucket : string)
    (volumeSize : Z) (creds : AmazonCreds) (distro : string) :
  (WriteAmazonAssets filepathJoin w opts region bucket volumeSize creds distro).2 = None ->
  DashOnly opts = false ->
  exists pre data,
    (WriteAmazonAssets filepathJoin w opts region bucket volumeSize creds distro).1.1
    = pre ++ [Encode (DocSecret data (fillDefaultResourceRequests opts amazonBackend));
              Newline]
    /\ (ID creds <> "" /\ Secret creds <> "" ->
        data = AmazonSecret region bucket (ID creds) (Secret creds) (Token creds) distro)
    /\ (~ (ID creds <> "" /\ Secret creds <> "") ->
        VaultRole creds <> "" /\ VaultToken creds <> "" ->
        data = AmazonVaultSecret region bucket (VaultAddress creds) (VaultRole creds)
                 (VaultToken creds) distro)
    /\ (~ (ID creds <> "" /\ Secret creds <> "") ->
        ~ (VaultRole creds <> "" /\ VaultToken creds <> "") ->
        data = None).
Proof.
  unfold WriteAmazonAssets. intros Hr Hd.
  pose proof (WriteAssets_opts_spec w opts amazonBackend amazonBackend volumeSize "") as Ho.
  rewrite decide_False in Ho by tauto.
  destruct (Manifest.WriteAssets filepathJoin w opts amazonBackend amazonBackend volumeSize "")
    as [[w' o'] [e|]]; [done|].
  cbn [fst snd] in *. subst o'. unfold WriteSecret. rewrite fill_DashOnly, Hd.
  unfold encode. eexists w', _. split; [reflexivity|].
  repeat case_decide; repeat split; intros; try done; tauto.
Qed.

(** X23: [EtcdVolume] builds a volume for each of the five backends and
    fails, naming the backend, for any other value. *)
Theorem EtcdVolume_error_iff (pd : backend) (opts : AssetOpts) (hostPath name : string)
    (size : Z) :
  (pd ∈ [localBackend; amazonBackend; googleBackend; microsoftBackend; minioBackend] ->
   exists volume,
     Manifest.EtcdVolume filepathJoin pd opts hostPath name size = inr volume
     /\ metaNamespace (pvObjectMeta volume) = Namespace opts
     /\ Capacity (pvSpec volume) !! "storage" = Some (QuantityGi size)
     /\ VolumeSource (pvSpec volume) <> NoVolumeSource)
  /\ (pd ∉ [localBackend; amazonBackend; googleBackend; microsoftBackend; minioBackend] ->
      Manifest.EtcdVolume filepathJoin pd opts hostPath name size
      = inl (ErrUnknownBackend pd)).
Proof.
  unfold Manifest.EtcdVolume. split.
  - intros Hin. repeat case_decide; try (eexists; repeat split; done).
    exfalso. rewrite !elem_of_cons, elem_of_nil in Hin. tauto.
  - rewrite !not_elem_of_cons. intros (? & ? & ? & ? & ? & _).
    rewrite !decide_False; tauto.
Qed.


(** X24: for the Microsoft backend [EtcdVolume] names the disk by the
    part of [name] after its last slash, which holds no slash, and
    keeps the whole of [name] as the disk's URI. *)
Theorem EtcdVolume_azure_disk_name (opts : AssetOpts) (hostPath name : string) (size : Z) :
  exists volume diskName dir,
    Manifest.EtcdVolume filepathJoin microsoftBackend opts hostPath name size = inr volume
    /\ VolumeSource (pvSpec volume) = AzureDisk diskName name
    /\ name = dir +:+ diskName
    /\ hasSep "/" diskName = false
    /\ (dir = "" \/ exists d, dir = d +:+ "/").
Proof.
  destruct (Split_last name "/") as (init & l & HS & Hn & Hl).
  unfold Manifest.EtcdVolume. rewrite !decide_False by (backends; lia).
  rewrite decide_True by done. eexists _, l, (withSep "/" init).
  split; [reflexivity|]. cbn [pvSpec VolumeSource]. split.
  - rewrite HS, length_app. simpl.
    replace (length init + 1 - 1)%nat with (length init + 0)%nat by lia.
    by rewrite lookup_app_r, Nat.add_0_r, Nat.sub_diag by lia.
  - repeat split; [done..|]. apply withSep_end.
Qed.

End WriterFacts.

Section CustomFacts.
Import Assets Manifest.
Variable filepathJoin : list string -> string.
Variable Atoi : string -> option Z.

(** X25: [WriteCustomAssets] returns an error, writes nothing and leaves
    the options as they were when the object store is not s3, when the
    number of arguments is not six, when the second argument is not an
    integer, or when the persistent disk is none of aws, google and
    azure. *)
Theorem WriteCustomAssets_rejected (w : Writer) (opts : AssetOpts) (args : list string)
    (objectStoreBackend persistentDiskBackend : string) (secure isS3V2 : bool) :
  objectStoreBackend <> "s3"
  \/ length args <> 6%nat
  \/ Atoi (arg args 1) = None
  \/ (persistentDiskBackend <> "aws" /\ persistentDiskBackend <> "google"
      /\ persistentDiskBackend <> "azure") ->
  exists err,
    WriteCustomAssets filepathJoin Atoi w opts args objectStoreBackend
      persistentDiskBackend secure isS3V2 = (w, opts, Some err)
    /\ err ∈ [ErrObjectStoreChoice; ErrExpectedArguments 6; ErrVolumeSize (arg args 1);
              ErrPersistentDiskChoice].
Proof.
  intros H. unfold WriteCustomAssets, s3CustomArgs.
  case_decide as Hs; [| eexists; split; [done | in_list]].
  case_decide as Hl; [eexists; split; [done | in_list] |].
  destruct (Atoi (arg args 1)) as [volumeSize|]; [| eexists; split; [done | in_list]].
  destruct H as [?|[?|[?|(Ha & Hg & Hz)]]]; try done.
  rewrite !decide_False by done. eexists; split; [done | in_list].
Qed.

End CustomFacts.

(** Sample options and library functions, at which the theorems with
    preconditions are instantiated. *)
Module ManifestExample.
Import Assets Manifest.
Definition opts (dashOnly : bool) (etcdNodes : Z) (etcdVolume : string) : AssetOpts :=
  mkAssetOpts 16 "1.7.0" "info" false false etcdNodes etcdVolume dashOnly false
    "pachyderm/dash:0.5.26" "" "pachyderm" false false "" "" "" "" "" "" "" false
    "default".
Definition join (elems : list string) : string := String.concat "/" elems.
Definition atoi (s : string) : option Z := if decide (s = "10") then Some 10 else None.
Definition creds : AmazonCreds := mkAmazonCreds "key-id" "key-secret" "" "" "" "".
End ManifestExample.

Lemma WriteAssets_error_output_witness :
  (Manifest.WriteAssets ManifestExample.join [] (ManifestExample.opts false 3 "vol-1")
     Assets.amazonBackend Assets.amazonBackend 10 "").1
  = ([] ++ docs (accountDocs (Assets.fillDefaultResourceRequests
                                 (ManifestExample.opts false 3 "vol-1")
                                 Assets.amazonBackend)),
     Assets.fillDefaultResourceRequests (ManifestExample.opts false 3 "vol-1")
       Assets.amazonBackend).
Proof.
  destruct (WriteAssets_error_output ManifestExample.join []
              (ManifestExample.opts false 3 "vol-1") Assets.amazonBackend
              Assets.amazonBackend 10 "" Manifest.ErrBothEtcdOptions eq_refl)
    as [[He _]|[_ Hw]].
  - discriminate He.
  - exact Hw.
Defined.


Lemma WriteCustomAssets_rejected_witness :
  exists err,
    Manifest.WriteCustomAssets ManifestExample.join ManifestExample.atoi []
      (ManifestExample.opts false 0 "vol-1") ["disk"; "ten"] "s3" "aws" false false
    = ([], ManifestExample.opts false 0 "vol-1", Some err).
Proof.
  destruct (WriteCustomAssets_rejected ManifestExample.join ManifestExample.atoi []
              (ManifestExample.opts false 0 "vol-1") ["disk"; "ten"] "s3" "aws"
              false false) as (err & H & _).
  - right. left. simpl. lia.
  - by exists err.
Defined.

Lemma WriteAmazonAssets_secret_witness :
  exists pre data,
    (Manifest.WriteAmazonAssets ManifestExample.join [] (ManifestExample.opts false 3 "")
       "us-east-1" "bucket" 10 ManifestExample.creds "").1.1
    = pre ++ [Manifest.Encode
                (Manifest.DocSecret data
                   (Assets.fillDefaultResourceRequests (ManifestExample.opts false 3 "")
                      Assets.amazonBackend));
              Manifest.Newline]
    /\ data = Manifest.AmazonSecret "us-east-1" "bucket" "key-id" "key-secret" "" "".
Proof.
  destruct (WriteAmazonAssets_secret ManifestExample.join []
              (ManifestExample.opts false 3 "") "us-east-1" "bucket" 10
              ManifestExample.creds "") as (pre & data & H & Hd & _).
  - by vm_compute.
  - reflexivity.
  - exists pre, data. split; [exact H|]. apply Hd. by vm_compute.
Defined.

Lemma AddRegistry_replaces_registry_witness :
  Manifest.AddRegistry ManifestExample.join "localhost:5000"
    ("docker.io" +:+ "/" +:+ "pachyderm" +:+ "/" +:+ "pachd:1.7.0")
  = Manifest.AddRegistry ManifestExample.join "localhost:5000"
      ("pachyderm" +:+ "/" +:+ "pachd:1.7.0").
Proof.
  apply (AddRegistry_replaces_registry ManifestExample.join "localhost:5000"
           "docker.io" "pachyderm" "pachd:1.7.0"); reflexivity.
Defined.

(** ** Vault login *)

Section VaultFacts.
Import Vault.
Context {Storage Client : Type}.
Variable getConfig : Storage -> result config.
Variable SanitizeTTLStr : string -> string -> result Duration.
Variable MaxLeaseTTL : Duration.
Variable DurationString : Duration -> string.
Variable Seconds : Duration -> Z.
Variable NewFromAddress : string -> result Client.
Variable GetAuthToken : Client -> string -> string -> Z -> result string.

Definition login (req : Request Storage) (d : FieldData) : result Response * list Call :=
  pathAuthLogin getConfig SanitizeTTLStr MaxLeaseTTL DurationString Seconds
    NewFromAddress GetAuthToken req d [].

(** The error for the first missing configuration field, in the order
    the function tests them. *)
Definition missingField (cfg : config) : error :=
  if decide (AdminToken cfg = "") then errorsNew "plugin is missing admin_token"
  else if decide (PachdAddress cfg = "") then errorsNew "plugin is missing pachd_address"
  else errorsNew "plugin is missing ttl".

Lemma length_zero_iff (s : string) : String.length s = 0%nat <-> s = "".
Proof. destruct s; simpl; split; intros; congruence. Qed.

Lemma noRemoteCall_debug (tr : list Call) (msg : string) :
  noRemoteCall tr -> noRemoteCall (tr ++ [CallDebug msg]).
Proof. intros H. apply Forall_app; split; [done|]. by repeat constructor. Qed.

Definition debugReceived (req : Request Storage) : Call :=
  CallDebug ("(" +:+ ID req +:+ ") " +:+ Operation req +:+ " received at " +:+ Path req).

Definition debugFinished (req : Request Storage) (success : bool) : Call :=
  CallDebug ("(" +:+ ID req +:+ ") " +:+ Operation req +:+ " finished at " +:+ Path req
             +:+ " (success=" +:+ fmtBool success +:+ ")").

Lemma login_no_username (req : Request Storage) (d : FieldData) :
  Get d "username" = "" ->
  login req d = (inl ErrInvalidRequest, [debugReceived req; debugFinished req false]).
Proof.
  intros Hu. unfold login, pathAuthLogin, pathAuthLoginBody.
  rewrite decide_True by (by apply length_zero_iff). reflexivity.
Qed.

Lemma login_missing_field (req : Request Storage) (d : FieldData) (cfg : config) :
  Get d "username" <> "" ->
  getConfig (ReqStorage req) = inr cfg ->
  AdminToken cfg = "" \/ PachdAddress cfg = "" \/ TTL cfg = "" ->
  login req d
  = (inl (missingField cfg), [debugReceived req; CallGetConfig; debugFinished req false]).
Proof.
  intros Hu Hcfg H. unfold login, pathAuthLogin, pathAuthLoginBody.
  rewrite decide_False by (by rewrite length_zero_iff).
  unfold mbind, M_bind, call, fail. cbn. rewrite Hcfg. unfold missingField.
  destruct (decide (String.length (AdminToken cfg) = 0%nat)) as [Ha|Ha];
    rewrite length_zero_iff in Ha.
  { by rewrite decide_True. }
  rewrite (decide_False (P := AdminToken cfg = "")) by done.
  destruct (decide (String.length (PachdAddress cfg) = 0%nat)) as [Hp|Hp];
    rewrite length_zero_iff in Hp.
  { by rewrite decide_True. }
  rewrite (decide_False (P := PachdAddress cfg = "")) by done.
  destruct (decide (String.length (TTL cfg) = 0%nat)) as [Ht|Ht];
    rewrite length_zero_iff in Ht; [done|].
  by destruct H as [?|[?|?]].
Qed.

Lemma missingField_not_invalid (cfg : config) : missingField cfg <> ErrInvalidRequest.
Proof. unfold missingField. by repeat case_decide. Qed.

(** C9: a login request with an empty [username] fails with
    [ErrInvalidRequest]; one with a username, whose stored configuration
    lacks [AdminToken], [PachdAddress] or [TTL], fails with the
    [errors.New] value naming the first missing field, which is not
    [ErrInvalidRequest]; in both cases the calls made contain no call to
    pachd (no client is dialled, no token is requested). *)
Theorem pathAuthLogin_rejects_before_remote (req : Request Storage) (d : FieldData) :
  Get d "username" = ""
  \/ (exists cfg, getConfig (ReqStorage req) = inr cfg
        /\ (AdminToken cfg = "" \/ PachdAddress cfg = "" \/ TTL cfg = "")) ->
  exists e,
    (login req d).1 = inl e
    /\ noRemoteCall (login req d).2
    /\ (Get d "username" = "" -> e = ErrInvalidRequest)
    /\ (Get d "username" <> "" ->
        e <> ErrInvalidRequest
        /\ forall cfg, getConfig (ReqStorage req) = inr cfg -> e = missingField cfg).
Proof.
  intros H. destruct (decide (Get d "username" = "")) as [Hu|Hu].
  - exists ErrInvalidRequest. rewrite login_no_username by done.
    repeat split; try done. by repeat constructor.
  - destruct H as [H|(cfg & Hcfg & H)]; [done|].
    exists (missingField cfg). rewrite (login_missing_field _ _ cfg) by done.
    split; [done|]. split; [by repeat constructor|]. split; [done|].
    intros _. split; [apply missingField_not_invalid|].
    intros cfg' Hcfg'. rewrite Hcfg in Hcfg'. by simplify_eq.
Qed.

(** The configuration passes the three emptiness tests. *)
Definition configComplete (cfg : config) : Prop :=
  AdminToken cfg <> "" /\ PachdAddress cfg <> "" /\ TTL cfg <> "".

(** The call that sanitises the configured TTL, and its answer. *)
Definition callSanitize (cfg : config) : Call :=
  CallSanitizeTTLStr (TTL cfg) (DurationString MaxLeaseTTL).

Definition sanitized (cfg : config) : result Duration :=
  SanitizeTTLStr (TTL cfg) (DurationString MaxLeaseTTL).

(** The response [pathAuthLogin] builds from a user token. *)
Definition loginResponse (cfg : config) (ttl : Duration) (userToken : string) : Response :=
  mkResponse (mkAuth
    {[ "user_token" := userToken ]}
    (<[ "user_token" := userToken ]> {[ "pachd_address" := PachdAddress cfg ]})
    (mkLeaseOptions ttl true)).

(** The calls that hand the admin token to a client or ask pachd for a
    token. *)
Definition usesAdminToken (c : Call) : bool :=
  match c with
  | CallSetAuthToken _ | CallGetAuthToken _ _ => true
  | _ => false
  end.

Definition isDebug (c : Call) : bool :=
  match c with CallDebug _ => true | _ => false end.

Definition succeeded {A} (r : result A) : bool :=
  match r with inr _ => true | inl _ => false end.

Ltac login_prefix Hu Hcfg Hc :=
  unfold login, pathAuthLogin, pathAuthLoginBody;
  rewrite decide_False by (by rewrite length_zero_iff);
  unfold mbind, M_bind, call, fail; cbn; rewrite Hcfg;
  try (destruct Hc as (Ha & Hp & Ht);
       rewrite !decide_False by (by rewrite length_zero_iff)).

Lemma login_getConfig_error (req : Request Storage) (d : FieldData) (e : error) :
  Get d "username" <> "" ->
  getConfig (ReqStorage req) = inl e ->
  login req d = (inl e, [debugReceived req; CallGetConfig; debugFinished req false]).
Proof. intros Hu Hcfg. login_prefix Hu Hcfg I. reflexivity. Qed.

Lemma login_ttl_error (req : Request Storage) (d : FieldData) (cfg : config) (e : error) :
  Get d "username" <> "" ->
  getConfig (ReqStorage req) = inr cfg ->
  configComplete cfg ->
  sanitized cfg = inl e ->
  login req d
  = (inl e, [debugReceived req; CallGetConfig; callSanitize cfg; debugFinished req false]).
Proof.
  intros Hu Hcfg Hc Hs. login_prefix Hu Hcfg Hc.
  unfold sanitized in Hs. rewrite Hs. reflexivity.
Qed.

Lemma login_dial_error (req : Request Storage) (d : FieldData) (cfg : config)
    (ttl : Duration) (e : error) :
  Get d "username" <> "" ->
  getConfig (ReqStorage req) = inr cfg ->
  configComplete cfg ->
  sanitized cfg = inr ttl ->
  NewFromAddress (PachdAddress cfg) = inl e ->
  login req d
  = (inl e, [debugReceived req; CallGetConfig; callSanitize cfg;
             CallNewFromAddress (PachdAddress cfg); debugFinished req false]).
Proof.
  intros Hu Hcfg Hc Hs Hn. login_prefix Hu Hcfg Hc.
  unfold sanitized in Hs. rewrite Hs.
  unfold generateUserCredentials, mbind, M_bind, call. cbn. rewrite Hn. reflexivity.
Qed.

Lemma login_token_error (req : Request Storage) (d : FieldData) (cfg : config)
    (ttl : Duration) (c : Client) (e : error) :
  Get d "username" <> "" ->
  getConfig (ReqStorage req) = inr cfg ->
  configComplete cfg ->
  sanitized cfg = inr ttl ->
  NewFromAddress (PachdAddress cfg) = inr c ->
  GetAuthToken c (AdminToken cfg) (Get d "username") (Seconds ttl) = inl e ->
  login req d
  = (inl e, [debugReceived req; CallGetConfig; callSanitize cfg;
             CallNewFromAddress (PachdAddress cfg); CallSetAuthToken (AdminToken cfg);
             CallGetAuthToken (Get d "username") (Seconds ttl); debugFinished req false]).
Proof.
  intros Hu Hcfg Hc Hs Hn Hg. login_prefix Hu Hcfg Hc.
  unfold sanitized in Hs. rewrite Hs.
  unfold generateUserCredentials, mbind, M_bind, call. cbn. rewrite Hn. cbn.
  rewrite Hg. reflexivity.
Qed.

Lemma login_ok (req : Request Storage) (d : FieldData) (cfg : config)
    (ttl : Duration) (c : Client) (tok : string) :
  Get d "username" <> "" ->
  getConfig (ReqStorage req) = inr cfg ->
  configComplete cfg ->
  sanitized cfg = inr ttl ->
  NewFromAddress (PachdAddress cfg) = inr c ->
  GetAuthToken c (AdminToken cfg) (Get d "username") (Seconds ttl) = inr tok ->
  login req d
  = (inr (loginResponse cfg ttl tok),
     [debugReceived req; CallGetConfig; callSanitize cfg;
      CallNewFromAddress (PachdAddress cfg); CallSetAuthToken (AdminToken cfg);
      CallGetAuthToken (Get d "username") (Seconds ttl); debugFinished req true]).
Proof.
  intros Hu Hcfg Hc Hs Hn Hg. login_prefix Hu Hcfg Hc.
  unfold sanitized in Hs. rewrite Hs.
  unfold generateUserCredentials, mbind, M_bind, call. cbn. rewrite Hn. cbn.
  rewrite Hg. reflexivity.
Qed.

Lemma configComplete_dec (cfg : config) :
  configComplete cfg \/ (AdminToken cfg = "" \/ PachdAddress cfg = "" \/ TTL cfg = "").
Proof.
  unfold configComplete.
  destruct (decide (AdminToken cfg = "")); [by right; left|].
  destruct (decide (PachdAddress cfg = "")); [by right; right; left|].
  destruct (decide (TTL cfg = "")); [by right; right; right|]. by left.
Qed.

(** The seven ways through [pathAuthLogin]. *)
Inductive LoginPath (req : Request Storage) (d : FieldData) :
    result Response * list Call -> Prop :=
  | PathNoUser :
      Get d "username" = "" ->
      LoginPath req d
        (inl ErrInvalidRequest, [debugReceived req; debugFinished req false])
  | PathConfigError e :
      Get d "username" <> "" ->
      getConfig (ReqStorage req) = inl e ->
      LoginPath req d
        (inl e, [debugReceived req; CallGetConfig; debugFinished req false])
  | PathMissingField cfg :
      Get d "username" <> "" ->
      getConfig (ReqStorage req) = inr cfg ->
      AdminToken cfg = "" \/ PachdAddress cfg = "" \/ TTL cfg = "" ->
      LoginPath req d
        (inl (missingField cfg),
         [debugReceived req; CallGetConfig; debugFinished req false])
  | PathTTLError cfg e :
      Get d "username" <> "" ->
      getConfig (ReqStorage req) = inr cfg ->
      configComplete cfg ->
      sanitized cfg = inl e ->
      LoginPath req d
        (inl e, [debugReceived req; CallGetConfig; callSanitize cfg;
                 debugFinished req false])
  | PathDialError cfg ttl e :
      Get d "username" <> "" ->
      getConfig (ReqStorage req) = inr cfg ->
      configComplete cfg ->
      sanitized cfg = inr ttl ->
      NewFromAddress (PachdAddress cfg) = inl e ->
      LoginPath req d
        (inl e, [debugReceived req; CallGetConfig; callSanitize cfg;
                 CallNewFromAddress (PachdAddress cfg); debugFinished req false])
  | PathTokenError cfg ttl c e :
      Get d "username" <> "" ->
      getConfig (ReqStorage req) = inr cfg ->
      configComplete cfg ->
      sanitized cfg = inr ttl ->
      NewFromAddress (PachdAddress cfg) = inr c ->
      GetAuthToken c (AdminToken cfg) (Get d "username") (Seconds ttl) = inl e ->
      LoginPath req d
        (inl e, [debugReceived req; CallGetConfig; callSanitize cfg;
                 CallNewFromAddress (PachdAddress cfg); CallSetAuthToken (AdminToken cfg);
                 CallGetAuthToken (Get d "username") (Seconds ttl);
                 debugFinished req false])
  | PathOk cfg ttl c tok :
      Get d "username" <> "" ->
      getConfig (ReqStorage req) = inr cfg ->
      configComplete cfg ->
      sanitized cfg = inr ttl ->
      NewFromAddress (PachdAddress cfg) = inr c ->
      GetAuthToken c (AdminToken cfg) (Get d "username") (Seconds ttl) = inr tok ->
      LoginPath req d
        (inr (loginResponse cfg ttl tok),
         [debugReceived req; CallGetConfig; callSanitize cfg;
          CallNewFromAddress (PachdAddress cfg); CallSetAuthToken (AdminToken cfg);
          CallGetAuthToken (Get d "username") (Seconds ttl);
          debugFinished req true]).

Lemma login_paths (req : Request Storage) (d : FieldData) :
  LoginPath req d (login req d).
Proof.
  destruct (decide (Get d "username" = "")) as [Hu|Hu].
  { rewrite login_no_username by done. by constructor. }
  destruct (getConfig (ReqStorage req)) as [e|cfg] eqn:Hcfg.
  { rewrite (login_getConfig_error _ _ e) by done. by constructor. }
  destruct (configComplete_dec cfg) as [Hc|Hm].
  2:{ rewrite (login_missing_field _ _ cfg) by done. by constructor. }
  destruct (sanitized cfg) as [e|ttl] eqn:Hs.
  { rewrite (login_ttl_error _ _ cfg e) by done. by constructor. }
  destruct (NewFromAddress (PachdAddress cfg)) as [e|c] eqn:Hn.
  { rewrite (login_dial_error _ _ cfg ttl e) by done. by econstructor. }
  destruct (GetAuthToken c (AdminToken cfg) (Get d "username") (Seconds ttl))
    as [e|tok] eqn:Hg.
  { rewrite (login_token_error _ _ cfg ttl c e) by done. by econstructor. }
  rewrite (login_ok _ _ cfg ttl c tok) by done. by econstructor.
Qed.


(** X1: when the configuration cannot be read, [pathAuthLogin] returns
    the error of [getConfig] as it is and stops: the TTL is not
    sanitised and pachd is not contacted. *)
Theorem pathAuthLogin_getConfig_error (req : Request Storage) (d : FieldData) (e : error) :
  Get d "username" <> "" ->
  getConfig (ReqStorage req) = inl e ->
  (login req d).1 = inl e
  /\ (login req d).2 = [debugReceived req; CallGetConfig; debugFinished req false].
Proof. intros Hu Hcfg. by rewrite (login_getConfig_error _ _ e). Qed.

(** X2: with a complete configuration whose TTL the framework rejects,
    [pathAuthLogin] returns the error of [SanitizeTTLStr] as it is, and
    no call reaches pachd. *)
Theorem pathAuthLogin_ttl_error (req : Request Storage) (d : FieldData)
    (cfg : config) (e : error) :
  Get d "username" <> "" ->
  getConfig (ReqStorage req) = inr cfg ->
  configComplete cfg ->
  sanitized cfg = inl e ->
  (login req d).1 = inl e /\ noRemoteCall (login req d).2.
Proof.
  intros Hu Hcfg Hc Hs. rewrite (login_ttl_error _ _ cfg e) by done.
  split; [done|]. by repeat constructor.
Qed.

(** X3: when pachd cannot be dialled, the error of [NewFromAddress] is
    returned as it is, and the admin token is neither handed to a
    client nor used to request a token. *)
Theorem pathAuthLogin_dial_error (req : Request Storage) (d : FieldData)
    (cfg : config) (ttl : Duration) (e : error) :
  Get d "username" <> "" ->
  getConfig (ReqStorage req) = inr cfg ->
  configComplete cfg ->
  sanitized cfg = inr ttl ->
  NewFromAddress (PachdAddress cfg) = inl e ->
  (login req d).1 = inl e
  /\ Forall (fun c => usesAdminToken c = false) (login req d).2.
Proof.
  intros Hu Hcfg Hc Hs Hn. rewrite (login_dial_error _ _ cfg ttl e) by done.
  split; [done|]. by repeat constructor.
Qed.

(** X4: [pathAuthLogin] answers with a response exactly when the
    username is not empty, the configuration is read and complete, its
    TTL is accepted, pachd is dialled at the configured address and
    grants a token for the username; the response is then the one built
    from that configuration, TTL and token. *)
Theorem pathAuthLogin_success_iff (req : Request Storage) (d : FieldData) (resp : Response) :
  (login req d).1 = inr resp <->
  Get d "username" <> ""
  /\ exists cfg ttl c tok,
       getConfig (ReqStorage req) = inr cfg
       /\ configComplete cfg
       /\ sanitized cfg = inr ttl
       /\ NewFromAddress (PachdAddress cfg) = inr c
       /\ GetAuthToken c (AdminToken cfg) (Get d "username") (Seconds ttl) = inr tok
       /\ resp = loginResponse cfg ttl tok.
Proof.
  split.
  - intros H. pose proof (login_paths req d) as P.
    destruct (login req d) as [r tr]. simpl in H. subst r.
    inversion P; subst. split; [done|]. by exists cfg, ttl, c, tok.
  - intros (Hu & cfg & ttl & c & tok & Hcfg & Hc & Hs & Hn & Hg & ->).
    by rewrite (login_ok _ _ cfg ttl c tok).
Qed.

(** X5: the response of a successful login holds the user token, as
    internal data and as metadata, and the configured pachd address as
    metadata, under these keys and no other; its lease is renewable
    and lasts the sanitised TTL. *)
Theorem pathAuthLogin_response_fields (req : Request Storage) (d : FieldData)
    (resp : Response) :
  (login req d).1 = inr resp ->
  let a := RespAuth resp in
  dom (InternalData a) = ({[ "user_token" ]} : gset string)
  /\ dom (Metadata a) = ({[ "user_token"; "pachd_address" ]} : gset string)
  /\ InternalData a !! "user_token" = Metadata a !! "user_token"
  /\ Renewable (AuthLeaseOptions a) = true
  /\ exists cfg,
       getConfig (ReqStorage req) = inr cfg
       /\ Metadata a !! "pachd_address" = Some (PachdAddress cfg)
       /\ sanitized cfg = inr (LeaseTTL (AuthLeaseOptions a)).
Proof.
  intros H. pose proof (login_paths req d) as P.
  destruct (login req d) as [r tr]. simpl in H. subst r.
  inversion P; subst. cbn. repeat split. by exists cfg.
Qed.

(** X6: every request writes exactly two log lines, the first and the
    last entry of its call log: "received", and "finished" with
    [success=true] exactly when a response is returned. *)
Theorem pathAuthLogin_log_bracket (req : Request Storage) (d : FieldData) :
  exists mid,
    (login req d).2
    = debugReceived req :: mid ++ [debugFinished req (succeeded (login req d).1)]
    /\ Forall (fun c => isDebug c = false) mid.
Proof.
  destruct (login_paths req d); cbn;
    [ exists []
    | exists [CallGetConfig]
    | exists [CallGetConfig]
    | exists [CallGetConfig; callSanitize cfg]
    | exists [CallGetConfig; callSanitize cfg; CallNewFromAddress (PachdAddress cfg)]
    | exists [CallGetConfig; callSanitize cfg; CallNewFromAddress (PachdAddress cfg);
              CallSetAuthToken (AdminToken cfg);
              CallGetAuthToken (Get d "username") (Seconds ttl)]
    | exists [CallGetConfig; callSanitize cfg; CallNewFromAddress (PachdAddress cfg);
              CallSetAuthToken (AdminToken cfg);
              CallGetAuthToken (Get d "username") (Seconds ttl)] ];
    (split; [reflexivity | by repeat constructor]).
Qed.

(** X7: a token is requested from pachd only for the username of the
    request and for the sanitised TTL in seconds; the request is
    preceded by dialling the configured address and setting the
    configured admin token on the client, and these three are the only
    calls to pachd. *)
Theorem pathAuthLogin_token_request (req : Request Storage) (d : FieldData)
    (subject : string) (secs : Z) :
  CallGetAuthToken subject secs ∈ (login req d).2 ->
  subject = Get d "username"
  /\ exists cfg ttl,
       getConfig (ReqStorage req) = inr cfg
       /\ sanitized cfg = inr ttl
       /\ secs = Seconds ttl
       /\ exists pre post,
            (login req d).2
            = pre ++ [CallNewFromAddress (PachdAddress cfg);
                      CallSetAuthToken (AdminToken cfg);
                      CallGetAuthToken subject secs] ++ post
            /\ noRemoteCall pre /\ noRemoteCall post.
Proof.
  intros H. destruct (login_paths req d);
    unfold debugReceived, debugFinished, callSanitize in H;
    repeat (apply elem_of_cons in H as [H|H]; [try discriminate H|]);
    try (by apply elem_of_nil in H);
    injection H as -> ->; (split; [done|]); exists cfg, ttl;
    (repeat split; try done);
    eexists [debugReceived req; CallGetConfig; callSanitize cfg], _;
    (split; [reflexivity|]); split; by repeat constructor.
Qed.

(** X8: if any call reaches pachd, then the username was not empty, the
    configuration was read and is complete, and its TTL was accepted. *)
Theorem pathAuthLogin_remote_after_validation (req : Request Storage) (d : FieldData) :
  ~ noRemoteCall (login req d).2 ->
  Get d "username" <> ""
  /\ exists cfg ttl,
       getConfig (ReqStorage req) = inr cfg
       /\ configComplete cfg
       /\ sanitized cfg = inr ttl.
Proof.
  intros H. destruct (login_paths req d);
    try (exfalso; apply H; by repeat constructor);
    (split; [done|]); by exists cfg, ttl.
Qed.

(** X9: an error returned by [pathAuthLogin] is [ErrInvalidRequest],
    the error naming the first missing configuration field, or the
    error of the collaborator that failed, unchanged. *)
Theorem pathAuthLogin_error_origin (req : Request Storage) (d : FieldData) (e : error) :
  (login req d).1 = inl e ->
  (Get d "username" = "" /\ e = ErrInvalidRequest)
  \/ getConfig (ReqStorage req) = inl e
  \/ exists cfg,
       getConfig (ReqStorage req) = inr cfg
       /\ ((~ configComplete cfg /\ e = missingField cfg)
           \/ sanitized cfg = inl e
           \/ NewFromAddress (PachdAddress cfg) = inl e
           \/ exists ttl c,
                sanitized cfg = inr ttl
                /\ NewFromAddress (PachdAddress cfg) = inr c
                /\ GetAuthToken c (AdminToken cfg) (Get d "username") (Seconds ttl) = inl e).
Proof.
  intros H. pose proof (login_paths req d) as P.
  destruct (login req d) as [r tr]. simpl in H. subst r.
  inversion P; subst.
  - by left.
  - by right; left.
  - right; right. exists cfg. split; [done|]. left. split; [|done].
    unfold configComplete. tauto.
  - right; right. exists cfg. split; [done|]. by right; left.
  - right; right. exists cfg. split; [done|]. by right; right; left.
  - right; right. exists cfg. split; [done|]. right; right; right. by exists ttl, c.
Qed.

End VaultFacts.

(** The theorem at a request for user ["alice"] against a configuration
    without an admin token. *)
Lemma pathAuthLogin_rejects_before_remote_witness :
  exists e,
    (Vault.pathAuthLogin (Storage := unit) (Client := unit)
       (fun _ => inr (Vault.mkConfig "" "pachd:650" "5m"))
       (fun _ _ => inr 300000000000) 0 (fun _ => "0s") (fun t => t / 1000000000)
       (fun _ => inr tt) (fun _ _ _ _ => inr "token")
       (Vault.mkRequest unit "req-1" "update" "login" tt)
       {[ "username" := "alice" ]} []).1 = inl e
    /\ e = Vault.errorsNew "plugin is missing admin_token".
Proof.
  destruct (pathAuthLogin_rejects_before_remote
              (Storage := unit) (Client := unit)
              (fun _ => inr (Vault.mkConfig "" "pachd:650" "5m"))
              (fun _ _ => inr 300000000000) 0 (fun _ => "0s") (fun t => t / 1000000000)
              (fun _ => inr tt) (fun _ _ _ _ => inr "token")
              (Vault.mkRequest unit "req-1" "update" "login" tt)
              {[ "username" := "alice" ]}) as (e & He & _ & _ & Hd).
  - right. exists (Vault.mkConfig "" "pachd:650" "5m"). split; [reflexivity|]. left. reflexivity.
  - exists e. split; [exact He|].
    destruct Hd as [_ Hd]; [by vm_compute|]. apply (Hd (Vault.mkConfig "" "pachd:650" "5m")). reflexivity.
Defined.

(** Sample collaborators and a sample request, at which the theorems
    with preconditions are instantiated. *)
Module VaultExample.
Import Vault.
Definition cfg : config := mkConfig "admin-token" "pachd:650" "5m".
Definition req : Request unit := mkRequest unit "req-1" "update" "login" tt.
Definition alice : FieldData := {[ "username" := "alice" ]}.
Definition stored : unit -> result config := fun _ => inr cfg.
Definition storageDown : unit -> result config :=
  fun _ => inl (ErrCollaborator "storage unavailable").
Definition sanitizeOk : string -> string -> result Duration :=
  fun _ _ => inr 300000000000.
Definition sanitizeBad : string -> string -> result Duration :=
  fun _ _ => inl (ErrCollaborator "invalid duration").
Definition maxLeaseTTL : Duration := 0.
Definition durationString (_ : Duration) : string := "0s".
Definition seconds (t : Duration) : Z := t / 1000000000.
Definition dialOk : string -> result unit := fun _ => inr tt.
Definition dialDown : string -> result unit :=
  fun _ => inl (ErrCollaborator "connection refused").
Definition grant : unit -> string -> string -> Z -> result string :=
  fun _ _ _ _ => inr "user-token".
End VaultExample.

Lemma pathAuthLogin_getConfig_error_witness :
  (login VaultExample.storageDown VaultExample.sanitizeOk VaultExample.maxLeaseTTL
     VaultExample.durationString VaultExample.seconds VaultExample.dialOk
     VaultExample.grant VaultExample.req VaultExample.alice).1
  = inl (Vault.ErrCollaborator "storage unavailable").
Proof.
  apply (pathAuthLogin_getConfig_error VaultExample.storageDown VaultExample.sanitizeOk
           VaultExample.maxLeaseTTL VaultExample.durationString VaultExample.seconds
           VaultExample.dialOk VaultExample.grant VaultExample.req VaultExample.alice
           (Vault.ErrCollaborator "storage unavailable")).
  - by vm_compute.
  - reflexivity.
Defined.

Lemma pathAuthLogin_ttl_error_witness :
  Vault.noRemoteCall
    (login VaultExample.stored VaultExample.sanitizeBad VaultExample.maxLeaseTTL
       VaultExample.durationString VaultExample.seconds VaultExample.dialOk
       VaultExample.grant VaultExample.req VaultExample.alice).2.
Proof.
  apply (pathAuthLogin_ttl_error VaultExample.stored VaultExample.sanitizeBad
           VaultExample.maxLeaseTTL VaultExample.durationString VaultExample.seconds
           VaultExample.dialOk VaultExample.grant VaultExample.req VaultExample.alice
           VaultExample.cfg (Vault.ErrCollaborator "invalid duration")).
  - by vm_compute.
  - reflexivity.
  - by vm_compute.
  - reflexivity.
Defined.

Lemma pathAuthLogin_dial_error_witness :
  (login VaultExample.stored VaultExample.sanitizeOk VaultExample.maxLeaseTTL
     VaultExample.durationString VaultExample.seconds VaultExample.dialDown
     VaultExample.grant VaultExample.req VaultExample.alice).1
  = inl (Vault.ErrCollaborator "connection refused").
Proof.
  apply (pathAuthLogin_dial_error VaultExample.stored VaultExample.sanitizeOk
           VaultExample.maxLeaseTTL VaultExample.durationString VaultExample.seconds
           VaultExample.dialDown VaultExample.grant VaultExample.req VaultExample.alice
           VaultExample.cfg 300000000000 (Vault.ErrCollaborator "connection refused")).
  - by vm_compute.
  - reflexivity.
  - by vm_compute.
  - reflexivity.
  - reflexivity.
Defined.

Lemma pathAuthLogin_response_fields_witness :
  exists resp,
    (login VaultExample.stored VaultExample.sanitizeOk VaultExample.maxLeaseTTL
       VaultExample.durationString VaultExample.seconds VaultExample.dialOk
       VaultExample.grant VaultExample.req VaultExample.alice).1 = inr resp
    /\ Vault.Renewable (Vault.AuthLeaseOptions (Vault.RespAuth resp)) = true.
Proof.
  eexists. split; [reflexivity|].
  apply (pathAuthLogin_response_fields VaultExample.stored VaultExample.sanitizeOk
           VaultExample.maxLeaseTTL VaultExample.durationString VaultExample.seconds
           VaultExample.dialOk VaultExample.grant VaultExample.req VaultExample.alice).
  reflexivity.
Defined.

Lemma pathAuthLogin_token_request_witness :
  "alice" = Vault.Get VaultExample.alice "username".
Proof.
  apply (pathAuthLogin_token_request VaultExample.stored VaultExample.sanitizeOk
           VaultExample.maxLeaseTTL VaultExample.durationString VaultExample.seconds
           VaultExample.dialOk VaultExample.grant VaultExample.req VaultExample.alice
           "alice" 300).
  vm_compute. repeat constructor.
Defined.

Lemma pathAuthLogin_remote_after_validation_witness :
  exists cfg ttl,
    VaultExample.stored (Vault.ReqStorage VaultExample.req) = inr cfg
    /\ configComplete cfg
    /\ sanitized VaultExample.sanitizeOk VaultExample.maxLeaseTTL
         VaultExample.durationString cfg = inr ttl.
Proof.
  apply (pathAuthLogin_remote_after_validation VaultExample.stored VaultExample.sanitizeOk
           VaultExample.maxLeaseTTL VaultExample.durationString VaultExample.seconds
           VaultExample.dialOk VaultExample.grant VaultExample.req VaultExample.alice).
  intros H.
  pose proof (proj1 (Forall_forall _ _) H (Vault.CallNewFromAddress "pachd:650")) as H'.
  assert (Hin : Vault.CallNewFromAddress "pachd:650"
                ∈ (login VaultExample.stored VaultExample.sanitizeOk
                     VaultExample.maxLeaseTTL VaultExample.durationString
                     VaultExample.seconds VaultExample.dialOk VaultExample.grant
                     VaultExample.req VaultExample.alice).2).
  { vm_compute. repeat constructor. }
  specialize (H' Hin). discriminate H'.
Defined.

Lemma pathAuthLogin_error_origin_witness :
  VaultExample.storageDown (Vault.ReqStorage VaultExample.req)
  = inl (Vault.ErrCollaborator "storage unavailable").
Proof.
  destruct (pathAuthLogin_error_origin VaultExample.storageDown VaultExample.sanitizeOk
              VaultExample.maxLeaseTTL VaultExample.durationString VaultExample.seconds
              VaultExample.dialOk VaultExample.grant VaultExample.req VaultExample.alice
              (Vault.ErrCollaborator "storage unavailable") eq_refl)
    as [[Hu _]|[Hc|(cfg & Hc & _)]].
  - vm_compute in Hu. discriminate Hu.
  - exact Hc.
  - discriminate Hc.
Defined.

(** ** The collection engine *)

(** ** Strings and key segments *)

Section StringFacts.
Import Collection.
Implicit Types (a b p s t : string).

Lemma app_cons c a b : String c a +:+ b = String c (a +:+ b).
Proof. reflexivity. Qed.

Lemma app_empty_l a : "" +:+ a = a.
Proof. reflexivity. Qed.

Lemma app_empty_r a : a +:+ "" = a.
Proof. induction a as [|c a IH]; [done|]. by rewrite app_cons, IH. Qed.

Lemma app_assoc_str a b t : (a +:+ b) +:+ t = a +:+ (b +:+ t).
Proof. induction a as [|c a IH]; [done|]. by rewrite !app_cons, IH. Qed.

Lemma length_app_str a b : String.length (a +:+ b) = (String.length a + String.length b)%nat.
Proof. induction a as [|c a IH]; [done|]. rewrite app_cons. simpl. by rewrite IH. Qed.

Lemma hasSlash_app a b : hasSlash (a +:+ b) = hasSlash a || hasSlash b.
Proof.
  induction a as [|c a IH]; [done|]. rewrite app_cons. simpl.
  destruct (Ascii.eqb c "/"); [done|]. apply IH.
Qed.

Lemma hasSlash_sep a b : hasSlash (a +:+ "/" +:+ b) = true.
Proof. rewrite hasSlash_app. simpl. by rewrite orb_true_r. Qed.

Lemma prefix_app p s : String.prefix p (p +:+ s) = true.
Proof.
  induction p as [|c p IH]; [by destruct s|]. rewrite app_cons. simpl.
  destruct (ascii_dec c c); [apply IH|done].
Qed.

Lemma prefix_inv p s : String.prefix p s = true -> exists r, s = p +:+ r.
Proof.
  revert s. induction p as [|c p IH]; intros s H; [by exists s|].
  destruct s as [|d s]; [done|]. simpl in H.
  destruct (ascii_dec c d) as [->|]; [|done].
  destruct (IH _ H) as [r ->]. by exists r.
Qed.

Lemma prefix_app_inv p a b : String.prefix (p +:+ a) (p +:+ b) = String.prefix a b.
Proof.
  induction p as [|c p IH]; [done|]. rewrite !app_cons. simpl.
  destruct (ascii_dec c c); [apply IH|done].
Qed.

Lemma prefix_empty s : String.prefix "" s = true.
Proof. by destruct s. Qed.

(** A key splits in one way at its last separator... *)
Lemma split_last_slash a a' b b' :
  hasSlash b = false -> hasSlash b' = false ->
  a +:+ "/" +:+ b = a' +:+ "/" +:+ b' -> a = a' /\ b = b'.
Proof.
  intros Hb Hb'. revert a'. induction a as [|c a IH]; intros [|c' a'] H;
    repeat (rewrite ?app_cons, ?app_empty_l in H); simplify_eq.
  - done.
  - rewrite hasSlash_app in Hb. simpl in Hb. by rewrite orb_true_r in Hb.
  - rewrite hasSlash_app in Hb'. simpl in Hb'. by rewrite orb_true_r in Hb'.
  - assert (a = a' /\ b = b') as [-> ->]; [|done].
    apply IH. by rewrite ?app_cons, ?app_empty_l.
Qed.

(** ... and at its first one. *)
Lemma split_first_slash a a' b b' :
  hasSlash a = false -> hasSlash a' = false ->
  a +:+ "/" +:+ b = a' +:+ "/" +:+ b' -> a = a' /\ b = b'.
Proof.
  revert a'. induction a as [|c a IH]; intros [|c' a'] Ha Ha' H;
    repeat (rewrite ?app_cons, ?app_empty_l in H); simplify_eq; try done.
  simpl in Ha, Ha'. destruct (Ascii.eqb c' "/"); [done|].
  assert (a = a' /\ b = b') as [-> ->]; [|done].
  apply IH; [done..|]. by rewrite ?app_cons, ?app_empty_l.
Qed.

(** A query prefix that ends in the separator and matches a key whose
    last segment has no separator already matches the key's directory. *)
Lemma prefix_sep_dir a b r id :
  hasSlash id = false ->
  b +:+ "/" +:+ id = a +:+ "/" +:+ r ->
  exists r', b +:+ "/" = a +:+ "/" +:+ r'.
Proof.
  intros Hid. revert b. induction a as [|c a IH]; intros [|c' b] H;
    repeat (rewrite ?app_cons, ?app_empty_l in H); simplify_eq.
  - by exists "".
  - exists (b +:+ "/"). by rewrite ?app_cons, ?app_empty_l.
  - rewrite hasSlash_app in Hid. simpl in Hid. by rewrite orb_true_r in Hid.
  - destruct (IH b) as [r' Hr']; [by rewrite ?app_cons, ?app_empty_l|].
    exists r'. rewrite !app_cons. by f_equal.
Qed.

Lemma trailingSegment_app a b :
  hasSlash b = false -> trailingSegment (a +:+ "/" +:+ b) = b.
Proof.
  intros Hb. induction a as [|c a IH].
  - rewrite ?app_cons, ?app_empty_l. simpl. by rewrite Hb.
  - rewrite app_cons. simpl. by rewrite hasSlash_sep.
Qed.

Lemma compare_app p a b : String.compare (p +:+ a) (p +:+ b) = String.compare a b.
Proof.
  induction p as [|c p IH]; [done|]. rewrite !app_cons. simpl.
  unfold Ascii.compare. by rewrite N.compare_refl.
Qed.

Lemma le_app p a b : String.le (p +:+ a) (p +:+ b) <-> String.le a b.
Proof. unfold String.le, String.leb. by rewrite compare_app. Qed.
End StringFacts.

(** ** The key space *)

Section KeyFacts.
Import Collection.
Context {Item FieldValue : Type}.
Implicit Types (c : collection (Item := Item) (FieldValue := FieldValue)).
Implicit Types (i : Index (Item := Item) (FieldValue := FieldValue)).
Implicit Types (key frag sv : string).

Lemma indexPath_unfold c i frag key :
  indexPath c i frag key
  = prefix c +:+ "__index_" +:+ Field i +:+ "/" +:+ frag +:+ "/" +:+ key.
Proof. unfold indexPath, indexDir, indexRoot. by rewrite !app_assoc_str. Qed.

Lemma indexQuery_unfold (stringify : FieldValue -> string) c i v :
  indexQuery stringify c i v
  = prefix c +:+ "__index_" +:+ Field i +:+ "/" +:+ stringify v +:+ "/".
Proof. unfold indexQuery, indexDir, indexRoot. by rewrite !app_assoc_str. Qed.

(** A primary key is never an index key of the same record id ... *)
Lemma Path_ne_indexPath_same c i frag key : Path c key <> indexPath c i frag key.
Proof.
  rewrite indexPath_unfold. unfold Path. intros H.
  apply (f_equal String.length) in H. rewrite !length_app_str in H. simpl in H. lia.
Qed.

(** ... nor of any other, when record ids have no separator. *)
Lemma Path_ne_indexPath c i frag key key' :
  hasSlash key = false -> Path c key <> indexPath c i frag key'.
Proof.
  rewrite indexPath_unfold. unfold Path. intros Hk H.
  apply (inj (String.app _)) in H. subst key.
  rewrite (hasSlash_app "__index_"), (hasSlash_app (Field i)) in Hk.
  rewrite (hasSlash_app "/") in Hk. simpl in Hk. by rewrite orb_true_r in Hk.
Qed.

Lemma Path_inj c key key' : Path c key = Path c key' -> key = key'.
Proof. unfold Path. apply (inj (String.app _)). Qed.

Lemma indexPath_inj c i i' frag frag' key key' :
  hasSlash (Field i) = false -> hasSlash (Field i') = false ->
  hasSlash key = false -> hasSlash key' = false ->
  indexPath c i frag key = indexPath c i' frag' key' ->
  Field i = Field i' /\ frag = frag' /\ key = key'.
Proof.
  intros Hi Hi' Hk Hk'. rewrite !indexPath_unfold. intros H.
  do 2 apply (inj (String.app _)) in H.
  rewrite <- !(app_assoc_str (Field _) "/"), <- !(app_assoc_str _ frag),
    <- !(app_assoc_str _ frag') in H.
  apply split_last_slash in H as [H ->]; [|done..].
  rewrite !app_assoc_str in H.
  apply split_first_slash in H as [-> ->]; done.
Qed.

Lemma indexPath_query (stringify : FieldValue -> string) c i v key :
  indexPath c i (stringify v) key = indexQuery stringify c i v +:+ key.
Proof. unfold indexQuery, indexPath. by rewrite app_assoc_str. Qed.

Lemma query_matches_self (stringify : FieldValue -> string) c i v key :
  String.prefix (indexQuery stringify c i v) (indexPath c i (stringify v) key) = true.
Proof. rewrite indexPath_query. apply prefix_app. Qed.

Lemma query_not_primary (stringify : FieldValue -> string) c i v key :
  hasSlash key = false ->
  String.prefix (indexQuery stringify c i v) (Path c key) = false.
Proof.
  intros Hk. destruct (String.prefix _ _) eqn:H; [|done].
  apply prefix_inv in H as [r H]. rewrite indexQuery_unfold in H. unfold Path in H.
  rewrite !app_assoc_str in H. apply (inj (String.app _)) in H. subst key.
  rewrite (hasSlash_app "__index_"), (hasSlash_app (Field i)) in Hk.
  rewrite (hasSlash_app "/") in Hk. simpl in Hk. by rewrite orb_true_r in Hk.
Qed.

Lemma query_matches_index (stringify : FieldValue -> string) c i i' v frag key :
  hasSlash (Field i) = false -> hasSlash (Field i') = false -> hasSlash key = false ->
  String.prefix (indexQuery stringify c i v) (indexPath c i' frag key) = true ->
  Field i = Field i' /\ String.prefix (stringify v +:+ "/") (frag +:+ "/") = true.
Proof.
  intros Hi Hi' Hk H. apply prefix_inv in H as [r H].
  rewrite indexQuery_unfold, indexPath_unfold in H. rewrite !app_assoc_str in H.
  do 2 apply (inj (String.app _)) in H.
  apply split_first_slash in H as [-> H]; [|done..]. split; [done|].
  apply prefix_sep_dir in H as [r' ->]; [|done].
  rewrite <- app_assoc_str. apply prefix_app.
Qed.
End KeyFacts.

(** ** Staged operations *)

Section StageFacts.
Import Collection.

Lemma lookup_stmApply s op k :
  kvs (stmApply s op) !! k = effect k [op] (kvs s !! k).
Proof.
  destruct op as [k' kv|k']; simpl.
  - case_decide; subst; [apply lookup_insert_eq|by apply lookup_insert_ne].
  - destruct (kvs s !! k') eqn:Hk'; simpl.
    + case_decide; subst; [apply lookup_delete_eq|by apply lookup_delete_ne].
    + case_decide; subst; done.
Qed.

Lemma lookup_stage ops s k : kvs (stage ops s) !! k = effect k ops (kvs s !! k).
Proof.
  revert s. induction ops as [|op ops IH]; intros s; [done|].
  unfold stage. simpl. fold (stage ops (stmApply s op)).
  rewrite IH, lookup_stmApply. done.
Qed.

Lemma effect_app k ops1 ops2 o : effect k (ops1 ++ ops2) o = effect k ops2 (effect k ops1 o).
Proof. unfold effect. apply foldl_app. Qed.

Lemma effect_untouched k ops o :
  Forall (fun op => opKey op <> k) ops -> effect k ops o = o.
Proof.
  intros H. revert o. induction H as [|op ops Hop _ IH]; intros o; [done|].
  change (effect k (op :: ops) o) with (effect k ops (effect k [op] o)). rewrite IH.
  destruct op; simpl in *; by rewrite decide_False.
Qed.

Lemma effect_puts k kv keys o :
  k ∈ keys -> effect k ((fun k' => OpPut k' kv) <$> keys) o = Some kv.
Proof.
  intros Hk. induction keys as [|k' keys IH] using rev_ind; [by apply elem_of_nil in Hk|].
  rewrite fmap_app, effect_app. simpl. case_decide; [done|].
  apply IH. apply elem_of_app in Hk as [?|Hk]; [done|].
  apply list_elem_of_singleton in Hk. congruence.
Qed.

Lemma effect_dels k keys o :
  k ∈ keys -> effect k (OpDel <$> keys) o = None.
Proof.
  intros Hk. induction keys as [|k' keys IH] using rev_ind; [by apply elem_of_nil in Hk|].
  rewrite fmap_app, effect_app. simpl. case_decide; [done|].
  apply IH. apply elem_of_app in Hk as [?|Hk]; [done|].
  apply list_elem_of_singleton in Hk. congruence.
Qed.

Lemma effect_mjoin_untouched {A} k (g : A -> list Op) (l : list A) o :
  (forall a op, a ∈ l -> op ∈ g a -> opKey op <> k) ->
  effect k (mjoin (g <$> l)) o = o.
Proof.
  intros H. apply effect_untouched. apply Forall_forall. intros op Hop.
  apply list_elem_of_join in Hop as (ops & Hop & Hops).
  apply list_elem_of_fmap in Hops as (a & -> & Ha). eauto.
Qed.

(** Where a present entry comes from. *)
Lemma effect_Some k ops o kv :
  effect k ops o = Some kv -> o = Some kv \/ OpPut k kv ∈ ops.
Proof.
  revert o. induction ops as [|op ops IH] using rev_ind; intros o; [by left|].
  rewrite effect_app. destruct op as [k' kv'|k']; simpl.
  - case_decide; subst.
    + intros [= ->]. right. apply elem_of_app. right. by apply list_elem_of_singleton.
    + intros Hk. apply IH in Hk as [?|?]; [by left|right]. apply elem_of_app. by left.
  - case_decide; subst; [done|].
    intros Hk. apply IH in Hk as [?|?]; [by left|right]. apply elem_of_app. by left.
Qed.

Lemma leases_stage ops s : leases (stage ops s) = leases s.
Proof.
  revert s. induction ops as [|op ops IH]; intros s; [done|].
  unfold stage. simpl. fold (stage ops (stmApply s op)). rewrite IH.
  destruct op; simpl; [done|]. by destruct (kvs s !! key).
Qed.

Lemma clock_stage ops s : clock (stage ops s) = clock s.
Proof.
  revert s. induction ops as [|op ops IH]; intros s; [done|].
  unfold stage. simpl. fold (stage ops (stmApply s op)). rewrite IH.
  destruct op; simpl; [done|]. by destruct (kvs s !! key).
Qed.
End StageFacts.

Section InvFacts.
Import Collection.
Context {Item FieldValue : Type}.
Variable Marshal : Item -> list Byte.byte.
Variable Unmarshal : list Byte.byte -> option Item.
Variable stringify : FieldValue -> string.
Variable c : collection (Item := Item) (FieldValue := FieldValue).
Hypothesis codec : forall x, Unmarshal (Marshal x) = Some x.
Hypothesis schema : okSchema c.

Implicit Types (i : Index (Item := Item) (FieldValue := FieldValue)).
Implicit Types (s : Etcd) (key frag : string) (x : Item).

Lemma Marshal_inj x y : Marshal x = Marshal y -> x = y.
Proof. intros H. apply (f_equal Unmarshal) in H. rewrite !codec in H. congruence. Qed.

Lemma field_slash i : i ∈ indexes c -> hasSlash (Field i) = false.
Proof. intros Hi. destruct schema as [H _]. by eapply Forall_forall in H. Qed.

Lemma field_inj i i' : i ∈ indexes c -> i' ∈ indexes c -> Field i = Field i' -> i = i'.
Proof.
  intros Hi Hi' HF. destruct schema as [_ Hnd].
  apply list_elem_of_lookup in Hi as [n Hn]. apply list_elem_of_lookup in Hi' as [n' Hn'].
  assert (n = n') as ->; [|congruence].
  eapply NoDup_lookup; [exact Hnd|..]; rewrite list_lookup_fmap.
  - by rewrite Hn.
  - rewrite Hn'. simpl. by rewrite HF.
Qed.

Lemma Inv_mono (U U' : string -> Item -> Prop) s :
  (forall k x, U k x -> U' k x) -> Inv Marshal stringify c U s -> Inv Marshal stringify c U' s.
Proof.
  intros HU [Hk Hi]. split; [|done].
  intros k kv Hkv. destruct (Hk k kv Hkv) as [(key&x&?&?&?&?)|(i&frag&key&x&?&?&?&?&?&?)].
  - left. exists key, x. eauto.
  - right. exists i, frag, key, x. eauto 10.
Qed.

Lemma Inv_empty (U : string -> Item -> Prop) : Inv Marshal stringify c U emptyEtcd.
Proof.
  split; simpl.
  - intros k kv. by rewrite lookup_empty.
  - intros i frag key _ _. rewrite !lookup_empty. split.
    + by intros [? ?].
    + by intros (kv&x&?&_).
Qed.

(** The primary record of an id, under the invariant. *)
Lemma Inv_primary U s key kv :
  Inv Marshal stringify c U s -> kvs s !! Path c key = Some kv -> hasSlash key = false ->
  exists x, Value kv = Marshal x /\ U key x.
Proof.
  intros [Hk _] Hkv Hkey.
  destruct (Hk _ _ Hkv) as [(key'&x&?&Heq&?&?)|(i&frag&key'&x&?&?&Heq&_)].
  - apply Path_inj in Heq as <-. eauto.
  - by apply Path_ne_indexPath in Heq.
Qed.

(** The keys of the operations of one write. *)
Lemma indexOps_keys key kv prev x i op :
  op ∈ indexOps stringify c key kv prev x i -> exists frag, opKey op = indexPath c i frag key.
Proof.
  unfold indexOps. intros [H|H]%elem_of_app;
    apply list_elem_of_fmap in H as (frag & -> & _); by exists frag.
Qed.

Lemma putOps_keys key kv prev x op :
  op ∈ putOps stringify c key kv prev x ->
  opKey op = Path c key \/ exists i frag, i ∈ indexes c /\ opKey op = indexPath c i frag key.
Proof.
  unfold putOps. intros [->|H]%elem_of_cons; [by left|right].
  apply list_elem_of_join in H as (ops & Hop & Hops).
  apply list_elem_of_fmap in Hops as (i & -> & Hi).
  apply indexOps_keys in Hop as [frag ?]. eauto.
Qed.

Lemma putOps_puts key kv prev x k kv' :
  OpPut k kv' ∈ putOps stringify c key kv prev x ->
  kv' = kv /\ (k = Path c key
               \/ exists i frag, i ∈ indexes c /\ frag ∈ indexEntries stringify i x
                                 /\ k = indexPath c i frag key).
Proof.
  unfold putOps. intros [H|H]%elem_of_cons; [simplify_eq; by auto|].
  apply list_elem_of_join in H as (ops & Hop & Hops).
  apply list_elem_of_fmap in Hops as (i & -> & Hi).
  unfold indexOps in Hop. apply elem_of_app in Hop as [Hop|Hop];
    apply list_elem_of_fmap in Hop as (frag & Heq & Hfrag); simplify_eq.
  apply list_elem_of_filter in Hfrag as [_ Hfrag]. split; [done|]. right. eauto.
Qed.

Lemma deleteOps_keys key x op :
  op ∈ deleteOps stringify c key x ->
  exists k, op = OpDel k
    /\ (k = Path c key \/ exists i frag, i ∈ indexes c /\ k = indexPath c i frag key).
Proof.
  unfold deleteOps. intros [->|H]%elem_of_cons; [eexists; split; [done|by left]|].
  apply list_elem_of_join in H as (ops & Hop & Hops).
  apply list_elem_of_fmap in Hops as (i & -> & Hi).
  apply list_elem_of_fmap in Hop as (frag & -> & _). eexists. split; [done|]. right. eauto.
Qed.

(** What one index's operations do to an index key of the written record. *)
Lemma effect_indexOps key kv prev x i frag o :
  hasSlash key = false -> i ∈ indexes c ->
  let cur := indexEntries stringify i x in
  let old := from_option (indexEntries stringify i) [] prev in
  effect (indexPath c i frag key) (indexOps stringify c key kv prev x i) o
  = if decide (frag ∈ cur)
    then (if decide (frag ∈ old) then o else Some kv)
    else (if decide (frag ∈ old) then None else o).
Proof.
  intros Hkey Hi cur old. unfold indexOps. fold cur old. rewrite effect_app.
  assert (forall frag', indexPath c i frag' key = indexPath c i frag key -> frag' = frag) as Hinj.
  { intros frag' H. apply indexPath_inj in H as (_&?&_); auto using field_slash. }
  destruct (decide (frag ∈ cur)) as [Hc|Hc]; destruct (decide (frag ∈ old)) as [Ho|Ho].
  - rewrite !effect_untouched; [done|..]; apply Forall_forall; intros op Hop;
      apply list_elem_of_fmap in Hop as (frag' & -> & [Hf _]%list_elem_of_filter);
      simpl; intros ->%Hinj; done.
  - rewrite (list_fmap_compose (fun frag => indexPath c i frag key) (fun k => OpPut k kv)).
    apply effect_puts. apply list_elem_of_fmap. exists frag. split; [done|].
    by apply list_elem_of_filter.
  - rewrite (effect_untouched _ (_ <$> filter _ cur)).
    + rewrite (list_fmap_compose (fun frag => indexPath c i frag key) OpDel).
      apply effect_dels. apply list_elem_of_fmap. exists frag. split; [done|].
      by apply list_elem_of_filter.
    + apply Forall_forall; intros op Hop.
      apply list_elem_of_fmap in Hop as (frag' & -> & [_ Hf]%list_elem_of_filter).
      simpl. intros ->%Hinj. done.
  - rewrite !effect_untouched; [done|..]; apply Forall_forall; intros op Hop;
      apply list_elem_of_fmap in Hop as (frag' & -> & [_ Hf]%list_elem_of_filter);
      simpl; intros ->%Hinj; done.
Qed.

(** Operations generated per index only matter for their own index. *)
Lemma effect_perIndex (g : Index -> list Op) key i frag o :
  hasSlash key = false -> i ∈ indexes c ->
  (forall i' op, op ∈ g i' -> exists frag', opKey op = indexPath c i' frag' key) ->
  effect (indexPath c i frag key) (mjoin (g <$> indexes c)) o
  = effect (indexPath c i frag key) (g i) o.
Proof.
  intros Hkey Hi Hg.
  assert (forall l, Field i ∉ Field <$> l -> (forall i', i' ∈ l -> i' ∈ indexes c) ->
            forall o, effect (indexPath c i frag key) (mjoin (g <$> l)) o = o) as Hother.
  { intros l Hl Hsub o'. apply effect_mjoin_untouched. intros i' op Hi' Hop.
    destruct (Hg _ _ Hop) as [frag' ->]. intros Heq.
    apply indexPath_inj in Heq as (HF&_&_); auto using field_slash.
    apply Hl. rewrite <- HF. by apply list_elem_of_fmap_2. }
  destruct schema as [_ Hnd].
  apply list_elem_of_split in Hi as (l1 & l2 & Heq). rewrite Heq in Hnd, Hother |- *.
  rewrite fmap_app, fmap_cons in Hnd.
  apply NoDup_app in Hnd as (_ & H1 & [H2 _]%NoDup_cons).
  rewrite fmap_app, fmap_cons, join_app. simpl. rewrite !effect_app.
  rewrite (Hother l1), (Hother l2); [done|..].
  - done.
  - intros i' Hi'. apply elem_of_app. right. by right.
  - intros Hin. apply (H1 _ Hin). by left.
  - intros i' Hi'. apply elem_of_app. by left.
Qed.
End InvFacts.
